(** * Privacy-policy scraper: the two implementations and their properties

    The repository holds two near-duplicate implementations of one design,
    [main.py] and [new_main.py].  Each is embedded below in a module of its
    own ([Main], [NewMain]); the Python and library pieces both rely on
    ([str] methods, the [re] patterns they use, the parsed-document
    interface, exceptions and the network) come first. *)

From Stdlib Require Import Ascii String.
From Stdlib Require Import List Bool Arith Lia Permutation.
Import ListNotations.

Local Open Scope list_scope.

(** ** Python strings

    A Python [str] is a sequence of code points.  The embedding keeps the
    code points below 256, one [ascii] each, which is enough for every
    literal of the two files. *)

Definition str : Type := list ascii.

(** [py "abc"] is the Python literal ['abc']. *)
Definition py (s : string) : str := list_ascii_of_string s.

Definition nl : ascii := "010"%char.
Definition space : ascii := " "%char.

Definition code (c : ascii) : nat := nat_of_ascii c.

(** [str.isspace] on one character, which is also what [\s] matches in a
    [str] pattern and what [str.strip()] removes: TAB, LF, VT, FF, CR,
    FS, GS, RS, US, SPACE, NEL and NBSP. *)
Definition isspace (c : ascii) : bool :=
  let n := code c in
  ((9 <=? n) && (n <=? 13)) || ((28 <=? n) && (n <=? 32))
  || (n =? 133) || (n =? 160).

(** [str.lower] on one character: A-Z and the Latin-1 capitals. *)
Definition lower_char (c : ascii) : ascii :=
  let n := code c in
  if ((65 <=? n) && (n <=? 90))
     || ((192 <=? n) && (n <=? 222) && negb (n =? 215))
  then ascii_of_nat (n + 32) else c.

Definition lower (s : str) : str := map lower_char s.

Definition len (s : str) : nat := length s.

Fixpoint str_eqb (a b : str) : bool :=
  match a, b with
  | [], [] => true
  | x :: a', y :: b' => Ascii.eqb x y && str_eqb a' b'
  | _, _ => false
  end.

(** [s.startswith(prefix)] *)
Fixpoint startswith (s prefix : str) {struct prefix} : bool :=
  match prefix with
  | [] => true
  | p :: prefix' =>
      match s with
      | [] => false
      | c :: s' => Ascii.eqb c p && startswith s' prefix'
      end
  end.

(** [s.startswith((p1, p2, ...))]: true when one of the prefixes fits. *)
Definition startswith_any (s : str) (prefixes : list str) : bool :=
  existsb (startswith s) prefixes.

Fixpoint lstrip (s : str) : str :=
  match s with
  | c :: s' => if isspace c then lstrip s' else s
  | [] => []
  end.

Definition rstrip (s : str) : str := rev (lstrip (rev s)).

(** [s.strip()] *)
Definition strip (s : str) : str := rstrip (lstrip s).

(** [sep.join(parts)] *)
Fixpoint join (sep : str) (parts : list str) : str :=
  match parts with
  | [] => []
  | [p] => p
  | p :: rest => p ++ sep ++ join sep rest
  end.

(** Truth value of a string: [if s:] *)
Definition truthy (s : str) : bool :=
  match s with [] => false | _ => true end.

(** ** The URL normaliser (identical in both files)

    [[
    def normalize_url(self, url):
        if not url.startswith(('http://', 'https://')):
            url = 'https://' + url
        return url
    ]] *)
Definition normalize_url (url : str) : str :=
  if negb (startswith_any url [py "http://"; py "https://"])
  then py "https://" ++ url
  else url.

(** ** Regular expressions: the fragment of [re] the two files use

    Every pattern of the two files is a concatenation of single-character
    atoms (a literal, a bracketed set, [\s], [\n]), each with an optional
    greedy quantifier ([?], [*], [+], [{n,}]).  [re_compile] reads the
    pattern text as written in the source (a raw string, so a backslash
    is a character of it); [match_here] is the backtracking matcher: a
    quantified atom first takes as many characters as it can and gives
    them back one at a time. *)

Inductive atom : Type :=
| Chr (c : ascii)            (* a literal character *)
| OneOf (cs : list ascii)    (* [...] without ranges *)
| Whitespace.                (* \s *)

Record quant : Type := mkQuant { qmin : nat; qmax : option nat }.

Definition once : quant := mkQuant 1 (Some 1).
Definition opt : quant := mkQuant 0 (Some 1).
Definition star : quant := mkQuant 0 None.
Definition plus : quant := mkQuant 1 None.
Definition at_least (n : nat) : quant := mkQuant n None.

Definition pattern : Type := list (atom * quant).

Definition atom_matches (a : atom) (c : ascii) : bool :=
  match a with
  | Chr x => Ascii.eqb c x
  | OneOf cs => existsb (Ascii.eqb c) cs
  | Whitespace => isspace c
  end.

(** Members of a bracketed set up to the closing bracket.  A [-] between
    two members would be a range, which the fragment leaves out. *)
Fixpoint parse_set (s : str) (first : bool) : option (list ascii * str) :=
  match s with
  | [] => None
  | c :: s' =>
      if Ascii.eqb c "]"%char then Some ([], s')
      else if Ascii.eqb c "\"%char then None
      else if Ascii.eqb c "-"%char && negb first
              && negb (startswith s' (py "]")) then None
      else match parse_set s' false with
           | Some (cs, rest) => Some (c :: cs, rest)
           | None => None
           end
  end.

Definition digit (c : ascii) : option nat :=
  let n := code c in
  if (48 <=? n) && (n <=? 57) then Some (n - 48) else None.

(** The digits of [{n,}] up to the comma. *)
Fixpoint parse_number (s : str) (acc : nat) : option (nat * str) :=
  match s with
  | [] => None
  | c :: s' =>
      match digit c with
      | Some d => parse_number s' (10 * acc + d)
      | None => if Ascii.eqb c ","%char then Some (acc, s') else None
      end
  end.

Definition parse_quant (s : str) : option (quant * str) :=
  match s with
  | c :: s' =>
      if Ascii.eqb c "?"%char then Some (opt, s')
      else if Ascii.eqb c "*"%char then Some (star, s')
      else if Ascii.eqb c "+"%char then Some (plus, s')
      else if Ascii.eqb c "{"%char then
        match s' with
        | d :: _ =>
            match digit d, parse_number s' 0 with
            | Some _, Some (n, c' :: rest) =>
                if Ascii.eqb c' "}"%char then Some (at_least n, rest)
                else None
            | _, _ => None
            end
        | [] => None
        end
      else Some (once, s)
  | [] => Some (once, [])
  end.

Definition metachar (c : ascii) : bool :=
  existsb (Ascii.eqb c) (py ".^$*+?{}[]|()").

Definition parse_atom (s : str) : option (atom * str) :=
  match s with
  | [] => None
  | c :: s' =>
      if Ascii.eqb c "\"%char then
        match s' with
        | e :: s'' =>
            if Ascii.eqb e "s"%char then Some (Whitespace, s'')
            else if Ascii.eqb e "n"%char then Some (Chr nl, s'')
            else None
        | [] => None
        end
      else if Ascii.eqb c "["%char then
        match parse_set s' true with
        | Some (cs, rest) => Some (OneOf cs, rest)
        | None => None
        end
      else if metachar c then None
      else Some (Chr c, s')
  end.

Fixpoint parse_items (fuel : nat) (s : str) : option pattern :=
  match s with
  | [] => Some []
  | _ =>
      match fuel with
      | 0 => None
      | S fuel' =>
          match parse_atom s with
          | Some (a, rest) =>
              match parse_quant rest with
              | Some (q, rest') =>
                  match parse_items fuel' rest' with
                  | Some p => Some ((a, q) :: p)
                  | None => None
                  end
              | None => None
              end
          | None => None
          end
      end
  end.

(** [re.compile(text)]; [None] outside the fragment. *)
Definition re_compile (text : string) : option pattern :=
  parse_items (length (py text)) (py text).

(** Number of leading characters of [s] that satisfy [f]. *)
Fixpoint span (f : ascii -> bool) (s : str) : nat :=
  match s with
  | c :: s' => if f c then S (span f s') else 0
  | [] => 0
  end.

(** Tries the counts [lo + d], [lo + d - 1], ..., [lo] in that order. *)
Fixpoint backtrack (try : nat -> option nat) (lo d : nat) : option nat :=
  match try (lo + d) with
  | Some r => Some r
  | None =>
      match d with
      | 0 => None
      | S d' => backtrack try lo d'
      end
  end.

(** Length of the match of [p] that starts at the head of [s], if any. *)
Fixpoint match_here (p : pattern) (s : str) : option nat :=
  match p with
  | [] => Some 0
  | (a, q) :: p' =>
      let avail := span (atom_matches a) s in
      let hi := match qmax q with
                | Some m => Nat.min m avail
                | None => avail
                end in
      if hi <? qmin q then None
      else backtrack
             (fun k => option_map (Nat.add k) (match_here p' (skipn k s)))
             (qmin q) (hi - qmin q)
  end.

(** [re.search(p, s)], used for its truth value only. *)
Fixpoint search (p : pattern) (s : str) : bool :=
  match match_here p s with
  | Some _ => true
  | None =>
      match s with
      | [] => false
      | _ :: s' => search p s'
      end
  end.

(** [re.sub(p, repl, s)] for a replacement without group references:
    leftmost matches, not overlapping.  [skip] counts the characters of
    the current match still to be passed over. *)
Fixpoint sub_from (p : pattern) (repl : str) (skip : nat) (s : str) : str :=
  match s with
  | [] =>
      match skip, match_here p [] with
      | 0, Some _ => repl
      | _, _ => []
      end
  | c :: s' =>
      match skip with
      | S k => sub_from p repl k s'
      | 0 =>
          match match_here p s with
          | Some 0 => repl ++ c :: sub_from p repl 0 s'
          | Some (S n) => repl ++ sub_from p repl n s'
          | None => c :: sub_from p repl 0 s'
          end
      end
  end.

Definition sub (p : pattern) (repl : str) (s : str) : str :=
  sub_from p repl 0 s.

(** A pattern of the source, compiled; the empty pattern stands for a
    text outside the fragment (no pattern below is). *)
Definition re (text : string) : pattern :=
  match re_compile text with
  | Some p => p
  | None => []
  end.

(** ** Parsed documents: the queries made on a [BeautifulSoup] tree *)

(** An element, as far as the two files look at it: the text strings
    below it, in document order. *)
Record Tag : Type := mkTag { strings : list str }.

(** [tag.get_text(separator, strip=True)]: every string stripped, the
    empty ones dropped, the rest joined with the separator. *)
Definition get_text (separator : str) (t : Tag) : str :=
  join separator (filter truthy (map strip (strings t))).

Record Soup : Type := mkSoup {
  (** [soup.find_all("a", href=True)]: each anchor with its [a['href']] *)
  find_all_a_href : list (str * Tag);
  (** [soup.select(selector)] *)
  select : str -> list Tag;
  (** [soup.find_all([name, ...])] *)
  find_all : list str -> list Tag
}.

(** ** Exceptions, the network and the trace of requests *)

Inductive exc (A : Type) : Type :=
| Return (a : A)
| Raise (e : str).   (* [e] is [str(exception)] *)

Arguments Return {A} a.
Arguments Raise {A} e.

Inductive event : Type :=
| GET (url : str)
| HEAD (url : str).

Definition trace : Type := list event.

(** A [requests] response.  [raise_for_status] is the outcome of the
    method of that name. *)
Record Response : Type := mkResponse {
  status_code : nat;
  text : str;
  raise_for_status : exc unit
}.

(** What lies outside the repository.  The answer to a request may depend
    on the requests the worker has made so far. *)
Record World : Type := mkWorld {
  (** [session.get(url, timeout=15)] *)
  session_get : trace -> str -> exc Response;
  (** [session.head(url, timeout=...)] *)
  session_head : trace -> str -> exc Response;
  (** [BeautifulSoup(text, "html.parser")] *)
  BeautifulSoup : str -> exc Soup;
  (** the tree after [tag.decompose()] on every [soup([name, ...])] *)
  decompose : list str -> Soup -> Soup;
  (** [urllib.parse.urljoin(base, url)] *)
  urljoin : str -> str -> exc str;
  (** [tldextract.extract(site).domain.capitalize()] *)
  company_of : str -> str
}.

(** The two calls a worker makes before its first request.  Either may
    raise: [time.sleep] raises [ValueError] on a negative length, which
    [random.uniform] gives for a [delay_range] below zero. *)
Record Runtime : Type := mkRuntime {
  (** [time.sleep(random.uniform(lo, hi))], [(lo, hi)] the [delay_range] *)
  pause : exc unit;
  (** [tldextract.extract(site).domain.capitalize()] *)
  lookup : str -> exc str
}.

(** The world in which the domain lookup has answered as [rt] does. *)
Definition with_lookup (w : World) (rt : Runtime) : World :=
  mkWorld (session_get w) (session_head w) (BeautifulSoup w) (decompose w)
          (urljoin w)
          (fun site => match lookup rt site with
                       | Return company => company
                       | Raise _ => []
                       end).

(** Computations that make requests and may raise. *)
Definition M (A : Type) : Type := trace -> exc A * trace.

Definition ret {A} (a : A) : M A := fun t => (Return a, t).

Definition bind {A B} (m : M A) (k : A -> M B) : M B :=
  fun t =>
    match m t with
    | (Return a, t') => k a t'
    | (Raise e, t') => (Raise e, t')
    end.

Definition lift {A} (r : exc A) : M A := fun t => (r, t).

(** [try: body except Exception as e: handler] *)
Definition try_except {A} (body : M A) (handler : str -> M A) : M A :=
  fun t =>
    match body t with
    | (Return a, t') => (Return a, t')
    | (Raise e, t') => handler e t'
    end.

Declare Scope py_scope.
Delimit Scope py_scope with py.
Notation "x <- m ;; k" := (bind m (fun x => k))
  (at level 61, m at next level, right associativity) : py_scope.
Notation "m ;; k" := (bind m (fun _ => k))
  (at level 61, right associativity) : py_scope.
Local Open Scope py_scope.

Definition get (w : World) (url : str) : M Response :=
  fun t => (session_get w t url, t ++ [GET url]).

Definition head (w : World) (url : str) : M Response :=
  fun t => (session_head w t url, t ++ [HEAD url]).

(** ** Results *)

Record Result : Type := mkResult {
  company : str;
  site : str;
  policy_url : str;
  result_text : str;
  status : str
}.

(** One submitted task: its site and what [future.result()] does. *)
Definition Future : Type := (str * exc Result)%type.

(** [x / y] on numbers: raises [ZeroDivisionError] when [y] is zero.  The
    quotient only reaches the log, so it is not kept. *)
Definition true_div (x y : nat) : exc unit :=
  if y =? 0 then Raise (py "division by zero") else Return tt.

Definition dquote : ascii := "034"%char.

(** The selector [[role="main"]]. *)
Definition role_main : str :=
  py "[role=" ++ [dquote] ++ py "main" ++ [dquote] ++ py "]".

(** The first anchor, in document order, whose lower-cased href or
    lower-cased text is found by one of the patterns; its href joined to
    the base URL is returned at once.
    [[
    for a in soup.find_all("a", href=True):
        href = a['href'].lower()
        text = a.get_text(strip=True).lower()
        for pattern in privacy_patterns:
            if re.search(pattern, href) or re.search(pattern, text):
                full_url = urljoin(base_url, a['href'])
                return full_url
    ]]
    ([new_main.py] writes the inner loop as [any(...)].) *)
Definition anchor_matches (patterns : list pattern) (a : str * Tag) : bool :=
  let href := lower (fst a) in
  let text := lower (get_text [] (snd a)) in
  existsb (fun pat => search pat href || search pat text) patterns.

Fixpoint scan_anchors (w : World) (patterns : list pattern) (base_url : str)
    (anchors : list (str * Tag)) : exc (option str) :=
  match anchors with
  | [] => Return None
  | a :: rest =>
      if anchor_matches patterns a then
        match urljoin w base_url (fst a) with
        | Return full_url => Return (Some full_url)
        | Raise e => Raise e
        end
      else scan_anchors w patterns base_url rest
  end.

(** The guessed paths, each probed with a HEAD request.
    [[
    for path in common_paths:
        test_url = urljoin(base_url, path)
        try:
            test_response = self.session.head(test_url, timeout=10)
            if test_response.status_code == 200:
                return test_url
        except:
            continue
    ]] *)
Fixpoint probe_paths (w : World) (base_url : str) (paths : list str)
    : M (option str) :=
  match paths with
  | [] => ret None
  | path :: rest =>
      test_url <- lift (urljoin w base_url path) ;;
      hit <- try_except
               (test_response <- head w test_url ;;
                ret (status_code test_response =? 200))
               (fun _ => ret false) ;;
      if hit then ret (Some test_url) else probe_paths w base_url rest
  end.

(** [if len(text) > len(content): content = text] over the elements. *)
Definition longer (content text : str) : str :=
  if len content <? len text then text else content.

Definition longest_text (content : str) (elements : list Tag) : str :=
  fold_left (fun content el => longer content (get_text [nl] el))
            elements content.

(** The fallback text: the stripped, non-empty texts of the listed
    elements, one per line. *)
Definition all_text (soup : Soup) (names : list str) : str :=
  join [nl]
    (filter truthy (map (get_text []) (find_all soup names))).

(** ** CSV tables

    A cell handed to [csv.writer.writerow] is a string or a number; a file
    is its name and the rows written to it, header first. *)

Inductive cell : Type :=
| Text (s : str)
| Number (n : nat).

Definition csv_file : Type := (str * list (list cell))%type.

(** ** [main.py] *)
Module Main.

Definition privacy_patterns : list pattern := Eval vm_compute in
  [ re "privacy[_-]?policy";
    re "privacy[_-]?statement";
    re "privacy[_-]?notice";
    re "data[_-]?protection";
    re "privacy";
    re "legal/privacy";
    re "about/privacy";
    re "support/privacy" ].

Definition common_paths : list str :=
  [ py "/privacy-policy"; py "/privacy"; py "/privacy-statement";
    py "/privacy-notice"; py "/legal/privacy"; py "/about/privacy";
    py "/support/privacy"; py "/privacy.html"; py "/privacy.php";
    py "/terms-and-privacy"; py "/legal/privacy-policy" ].

(** The resolver with the pattern list as a parameter. *)
Definition find_privacy_policy_url_with (patterns : list pattern)
    (w : World) (base_url : str) : M (option str) :=
  try_except
    (let base_url := normalize_url base_url in
     response <- get w base_url ;;
     lift (raise_for_status response) ;;
     soup <- lift (BeautifulSoup w (text response)) ;;
     found <- lift (scan_anchors w patterns base_url (find_all_a_href soup)) ;;
     match found with
     | Some full_url => ret (Some full_url)
     | None => probe_paths w base_url common_paths
     end)
    (fun _ => ret None).

Definition find_privacy_policy_url : World -> str -> M (option str) :=
  find_privacy_policy_url_with privacy_patterns.

Definition unwanted : list str :=
  [ py "script"; py "style"; py "nav"; py "header"; py "footer";
    py "aside"; py "noscript" ].

Definition content_selectors : list str :=
  [ py "main"; role_main; py ".main-content"; py ".content";
    py ".policy-content"; py ".privacy-policy"; py ".legal-content";
    py "article"; py ".container" ].

(** [[
    content_text = ""
    for selector in content_selectors:
        elements = soup.select(selector)
        if elements:
            for element in elements:
                text = element.get_text(separator='\n', strip=True)
                if len(text) > len(content_text):
                    content_text = text
            break
    ]] *)
Fixpoint main_content (soup : Soup) (content_text : str)
    (selectors : list str) : str :=
  match selectors with
  | [] => content_text
  | selector :: rest =>
      match select soup selector with
      | [] => main_content soup content_text rest
      | elements => longest_text content_text elements
      end
  end.

Definition text_names : list str :=
  [ py "p"; py "div"; py "span"; py "article"; py "section";
    py "h1"; py "h2"; py "h3"; py "h4"; py "h5"; py "h6"; py "li" ].

Definition NEWLINE_GAP : pattern := Eval vm_compute in re "\n\s*\n".
Definition WHITESPACE : pattern := Eval vm_compute in re "\s+".

(** [[
    content_text = re.sub(r'\n\s*\n', '\n\n', content_text)
    content_text = re.sub(r'\s+', ' ', content_text)
    ]] *)
Definition clean (content_text : str) : str :=
  sub WHITESPACE [space] (sub NEWLINE_GAP [nl; nl] content_text).

Definition MAX_CHARS : nat := 50 * 1000.

Definition marker : str := py "... [Content truncated]".

(** [[
    if len(content_text) > 50000:
        content_text = content_text[:50000] + "... [Content truncated]"
    ]] *)
Definition truncate (content_text : str) : str :=
  if MAX_CHARS <? len content_text
  then firstn MAX_CHARS content_text ++ marker
  else content_text.

(** The text of a parsed page before it is cleaned: the unwanted
    elements are removed, then the main content is taken or, when that is
    empty, the text of all the text elements. *)
Definition raw_content (w : World) (soup : Soup) : str :=
  let soup := decompose w unwanted soup in
  let content_text := main_content soup [] content_selectors in
  if negb (truthy content_text) then all_text soup text_names
  else content_text.

(** The text taken from a parsed page. *)
Definition page_text (w : World) (soup : Soup) : str :=
  truncate (clean (raw_content w soup)).

Definition get_policy_text (w : World) (url : str) : M (option str) :=
  try_except
    (response <- get w url ;;
     lift (raise_for_status response) ;;
     soup <- lift (BeautifulSoup w (text response)) ;;
     ret (Some (page_text w soup)))
    (fun _ => ret None).

(** The worker, from the point where its pause has returned and the
    domain lookup has given [company_of w site]; [scrape_single_site_run]
    below has both calls. *)
Definition scrape_single_site (w : World) (site : str) : M Result :=
  try_except
    (let company := company_of w site in
     policy_url <- find_privacy_policy_url w site ;;
     match policy_url with
     | Some ((_ :: _) as policy_url) =>
         text <- get_policy_text w policy_url ;;
         match text with
         | Some ((_ :: _) as text) =>
             if 100 <? len (strip text)
             then ret (mkResult company site policy_url text (py "success"))
             else ret (mkResult company site policy_url []
                                (py "text_extraction_failed"))
         | _ => ret (mkResult company site policy_url []
                              (py "text_extraction_failed"))
         end
     | _ => ret (mkResult company site [] [] (py "policy_not_found"))
     end)
    (fun e => ret (mkResult (company_of w site) site [] []
                            (py "error: " ++ e))).

(** The whole worker.  The pause and the domain lookup are inside the
    [try]; the handler looks the domain up again.
    [[
    try:
        time.sleep(random.uniform(lo, hi))
        company = tldextract.extract(site).domain.capitalize()
        policy_url = self.find_privacy_policy_url(site)
        ...
    except Exception as e:
        return {'company': tldextract.extract(site).domain.capitalize(),
                'site': site, 'policy_url': '', 'text': '',
                'status': f'error: {str(e)}'}
    ]] *)
Definition scrape_single_site_run (rt : Runtime) (w : World) (site : str)
    : M Result :=
  try_except
    (lift (pause rt) ;;
     company <- lift (lookup rt site) ;;
     policy_url <- find_privacy_policy_url w site ;;
     match policy_url with
     | Some ((_ :: _) as policy_url) =>
         text <- get_policy_text w policy_url ;;
         match text with
         | Some ((_ :: _) as text) =>
             if 100 <? len (strip text)
             then ret (mkResult company site policy_url text (py "success"))
             else ret (mkResult company site policy_url []
                                (py "text_extraction_failed"))
         | _ => ret (mkResult company site policy_url []
                              (py "text_extraction_failed"))
         end
     | _ => ret (mkResult company site [] [] (py "policy_not_found"))
     end)
    (fun e =>
       company <- lift (lookup rt site) ;;
       ret (mkResult company site [] [] (py "error: " ++ e))).

(** The tasks handed to the pool: task [i] runs the worker on site [i]
    against the network as that worker meets it, [net i]. *)
Fixpoint submit_all (net : nat -> World) (i : nat) (websites : list str)
    : list Future :=
  match websites with
  | [] => []
  | site :: rest =>
      (site, fst (scrape_single_site (net i) site []))
        :: submit_all net (S i) rest
  end.

(** [[
    for future in as_completed(future_to_site):
        site = future_to_site[future]
        try:
            result = future.result()
            results.append(result)
            if result['status'] == 'success':
                successful_scrapes += 1
        except Exception as e:
            results.append({... 'status': f'exception: {str(e)}'})
    ]] *)
Fixpoint collect (w : World) (done : list Future) (results : list Result)
    (successful_scrapes : nat) : list Result * nat :=
  match done with
  | [] => (results, successful_scrapes)
  | (site, Return result) :: rest =>
      collect w rest (results ++ [result])
        (if str_eqb (status result) (py "success")
         then successful_scrapes + 1 else successful_scrapes)
  | (site, Raise e) :: rest =>
      collect w rest
        (results ++ [mkResult (company_of w site) site [] []
                              (py "exception: " ++ e)])
        successful_scrapes
  end.

(** The result a finished task leaves in [results]. *)
Definition settle (w : World) (f : Future) : Result :=
  match f with
  | (_, Return result) => result
  | (site, Raise e) =>
      mkResult (company_of w site) site [] [] (py "exception: " ++ e)
  end.

(** The coordinator.  [as_completed] gives the tasks back in the order
    they finish; [w] is the world of the coordinating thread.  Writing the
    CSV files and the log lines return nothing that is used; the success
    rate of the last log line is computed before [results] is returned.
    [[
    logger.info(f"Success rate: {(successful_scrapes/len(websites)*100):.1f}%")
    return results
    ]] *)
Definition scrape_privacy_policies (w : World) (net : nat -> World)
    (as_completed : list Future -> list Future) (websites : list str)
    : exc (list Result) :=
  let future_to_site := submit_all net 0 websites in
  let '(results, successful_scrapes) :=
    collect w (as_completed future_to_site) [] 0 in
  match true_div successful_scrapes (length websites) with
  | Return _ => Return results
  | Raise e => Raise e
  end.

(** The rows of the full table.  [strftime i fmt] is what the [i]-th call
    of [time.strftime] returns.
    [[
    for result in results:
        writer.writerow([result['company'], result['site'],
            result['policy_url'], result['text'], result['status'],
            len(result['text']), time.strftime("%Y-%m-%d %H:%M:%S")])
    ]] *)
Fixpoint full_rows (strftime : nat -> str -> str) (i : nat)
    (results : list Result) : list (list cell) :=
  match results with
  | [] => []
  | result :: rest =>
      [ Text (company result); Text (site result);
        Text (policy_url result); Text (result_text result);
        Text (status result); Number (len (result_text result));
        Text (strftime i (py "%Y-%m-%d %H:%M:%S")) ]
        :: full_rows strftime (S i) rest
  end.

Definition summary_row (result : Result) : list cell :=
  [ Text (company result); Text (site result); Text (policy_url result);
    Text (status result); Number (len (result_text result)) ].

(** The two files [save_results] writes, in the order it writes them. *)
Definition save_results (strftime : nat -> str -> str)
    (results : list Result) : list csv_file :=
  let timestamp := strftime 0 (py "%Y%m%d_%H%M%S") in
  let filename := py "privacy_policies_" ++ timestamp ++ py ".csv" in
  let summary_filename :=
    py "privacy_policies_summary_" ++ timestamp ++ py ".csv" in
  [ (filename,
     [ Text (py "Company"); Text (py "Website");
       Text (py "Privacy Policy URL"); Text (py "Text");
       Text (py "Status"); Text (py "Text Length");
       Text (py "Scrape Timestamp") ]
       :: full_rows strftime 1 results);
    (summary_filename,
     [ Text (py "Company"); Text (py "Website");
       Text (py "Privacy Policy URL"); Text (py "Status");
       Text (py "Text Length") ]
       :: map summary_row results) ].

(** [failed_sites = [r for r in results if r['status'] != 'success']]
    of [main()]. *)
Definition failed_sites (results : list Result) : list Result :=
  filter (fun r => negb (str_eqb (status r) (py "success"))) results.

End Main.

(** ** [new_main.py] *)
Module NewMain.

Definition patterns : list pattern := Eval vm_compute in
  [ re "privacy"; re "data[_-]?protection"; re "legal/privacy" ].

Definition fallback_paths : list str :=
  [ py "/privacy"; py "/privacy-policy"; py "/legal/privacy";
    py "/privacy.html"; py "/privacy.php" ].

(** The resolver with the pattern list as a parameter.
    [normalize_url] is called before the [try]. *)
Definition find_policy_url_with (patterns : list pattern)
    (w : World) (base_url : str) : M (option str) :=
  let base_url := normalize_url base_url in
  try_except
    (res <- get w base_url ;;
     lift (raise_for_status res) ;;
     soup <- lift (BeautifulSoup w (text res)) ;;
     found <- lift (scan_anchors w patterns base_url (find_all_a_href soup)) ;;
     match found with
     | Some full_url => ret (Some full_url)
     | None => probe_paths w base_url fallback_paths
     end)
    (fun _ => ret None).

Definition find_policy_url : World -> str -> M (option str) :=
  find_policy_url_with patterns.

Definition unwanted : list str :=
  [ py "script"; py "style"; py "nav"; py "footer"; py "header";
    py "aside" ].

Definition selectors : list str :=
  [ py "main"; role_main; py ".content"; py ".policy-content";
    py "article" ].

(** [[
    content = ""
    for sel in selectors:
        elements = soup.select(sel)
        for el in elements:
            text = el.get_text(separator="\n", strip=True)
            if len(text) > len(content):
                content = text
        if content:
            break
    ]] *)
Fixpoint main_content (soup : Soup) (content : str) (sels : list str)
    : str :=
  match sels with
  | [] => content
  | sel :: rest =>
      let content := longest_text content (select soup sel) in
      if truthy content then content else main_content soup content rest
  end.

Definition text_names : list str :=
  [ py "p"; py "div"; py "span"; py "section" ].

Definition NEWLINES : pattern := Eval vm_compute in re "\n{2,}".

(** [cleaned = re.sub(r'\n{2,}', '\n\n', content).strip()] *)
Definition clean (content : str) : str :=
  strip (sub NEWLINES [nl; nl] content).

Definition MAX_CHARS : nat := 50 * 1000.

Definition marker : str := py "... [Truncated]".

(** [cleaned[:50000] + ("... [Truncated]" if len(cleaned) > 50000 else "")] *)
Definition truncate (cleaned : str) : str :=
  firstn MAX_CHARS cleaned
    ++ (if MAX_CHARS <? len cleaned then marker else []).

Definition raw_content (w : World) (soup : Soup) : str :=
  let soup := decompose w unwanted soup in
  let content := main_content soup [] selectors in
  if negb (truthy content) then all_text soup text_names else content.

Definition page_text (w : World) (soup : Soup) : str :=
  truncate (clean (raw_content w soup)).

Definition extract_policy_text (w : World) (url : str) : M (option str) :=
  try_except
    (res <- get w url ;;
     lift (raise_for_status res) ;;
     soup <- lift (BeautifulSoup w (text res)) ;;
     ret (Some (page_text w soup)))
    (fun _ => ret None).

Definition _result (company site url text status : str) : Result :=
  mkResult company site url text status.

(** The worker, from the point where its pause has returned and the
    domain lookup has given [company_of w site]; [scrape_site_run] below
    has both calls. *)
Definition scrape_site (w : World) (site : str) : M Result :=
  let domain := company_of w site in
  try_except
    (policy_url <- find_policy_url w site ;;
     match policy_url with
     | Some ((_ :: _) as policy_url) =>
         text <- extract_policy_text w policy_url ;;
         match text with
         | Some ((_ :: _) as text) =>
             if len (strip text) <? 100
             then ret (_result domain site policy_url [] (py "text_too_short"))
             else ret (_result domain site policy_url text (py "success"))
         | _ => ret (_result domain site policy_url [] (py "text_too_short"))
         end
     | _ => ret (_result domain site [] [] (py "not_found"))
     end)
    (fun e => ret (_result domain site [] [] (py "error: " ++ e))).

(** The whole worker.  The pause and the domain lookup come before the
    [try], so what they raise leaves the worker.
    [[
    time.sleep(random.uniform(lo, hi))
    domain = tldextract.extract(site).domain.capitalize()
    try:
        policy_url = self.find_policy_url(site)
        ...
    except Exception as e:
        return self._result(domain, site, '', '', f'error: {str(e)}')
    ]] *)
Definition scrape_site_run (rt : Runtime) (w : World) (site : str)
    : M Result :=
  lift (pause rt) ;;
  domain <- lift (lookup rt site) ;;
  try_except
    (policy_url <- find_policy_url w site ;;
     match policy_url with
     | Some ((_ :: _) as policy_url) =>
         text <- extract_policy_text w policy_url ;;
         match text with
         | Some ((_ :: _) as text) =>
             if len (strip text) <? 100
             then ret (_result domain site policy_url [] (py "text_too_short"))
             else ret (_result domain site policy_url text (py "success"))
         | _ => ret (_result domain site policy_url [] (py "text_too_short"))
         end
     | _ => ret (_result domain site [] [] (py "not_found"))
     end)
    (fun e => ret (_result domain site [] [] (py "error: " ++ e))).

Fixpoint submit_all (net : nat -> World) (i : nat) (sites : list str)
    : list Future :=
  match sites with
  | [] => []
  | site :: rest =>
      (site, fst (scrape_site (net i) site [])) :: submit_all net (S i) rest
  end.

(** [[
    for future in as_completed(futures):
        results.append(future.result())
    ]]
    An exception of [future.result()] is not caught here. *)
Fixpoint collect (done : list Future) (results : list Result)
    : exc (list Result) :=
  match done with
  | [] => Return results
  | (_, Return result) :: rest => collect rest (results ++ [result])
  | (_, Raise e) :: _ => Raise e
  end.

Definition scrape_all (net : nat -> World)
    (as_completed : list Future -> list Future) (sites : list str)
    : exc (list Result) :=
  let futures := submit_all net 0 sites in
  collect (as_completed futures) [].

(** The batch of whole workers: task [i] pauses and looks its domain up
    as [rt i] says. *)
Fixpoint submit_all_run (rt : nat -> Runtime) (net : nat -> World) (i : nat)
    (sites : list str) : list Future :=
  match sites with
  | [] => []
  | site :: rest =>
      (site, fst (scrape_site_run (rt i) (net i) site []))
        :: submit_all_run rt net (S i) rest
  end.

Definition scrape_all_run (rt : nat -> Runtime) (net : nat -> World)
    (as_completed : list Future -> list Future) (sites : list str)
    : exc (list Result) :=
  let futures := submit_all_run rt net 0 sites in
  collect (as_completed futures) [].

(** The two files [save_csv] writes, in the order it writes them. *)
Definition save_csv (output_prefix : str) (results : list Result)
    : list csv_file :=
  let full_path := output_prefix ++ py ".csv" in
  let summary_path := output_prefix ++ py "_summary.csv" in
  [ (full_path,
     [ Text (py "Company"); Text (py "Website");
       Text (py "Privacy Policy URL"); Text (py "Text");
       Text (py "Status"); Text (py "Text Length") ]
       :: map (fun r => [ Text (company r); Text (site r);
                          Text (policy_url r); Text (result_text r);
                          Text (status r); Number (len (result_text r)) ])
              results);
    (summary_path,
     [ Text (py "Company"); Text (py "Website"); Text (py "URL");
       Text (py "Status") ]
       :: map (fun r => [ Text (company r); Text (site r);
                          Text (policy_url r); Text (status r) ])
              results) ].

End NewMain.

(** ** Reference functions

    The post-processing as the specification words it, to compare with
    the substitutions of the two files. *)

(** Every run of whitespace becomes one space.  [in_run] tells that the
    character before was whitespace. *)
Fixpoint collapse_runs (in_run : bool) (s : str) : str :=
  match s with
  | [] => []
  | c :: s' =>
      if isspace c then
        if in_run then collapse_runs true s'
        else space :: collapse_runs true s'
      else c :: collapse_runs false s'
  end.

Definition collapse_whitespace (s : str) : str := collapse_runs false s.

(** Every run of two or more newlines becomes exactly two newlines.
    [seen] counts the newlines of the current run already kept, up to
    two. *)
Fixpoint collapse_newline_runs (seen : nat) (s : str) : str :=
  match s with
  | [] => []
  | c :: s' =>
      if Ascii.eqb c nl then
        if seen <? 2 then nl :: collapse_newline_runs (S seen) s'
        else collapse_newline_runs seen s'
      else c :: collapse_newline_runs 0 s'
  end.

Definition collapse_newlines (s : str) : str := collapse_newline_runs 0 s.

(** No whitespace at either end. *)
Definition starts_clean (s : str) : Prop :=
  match s with
  | [] => True
  | c :: _ => isspace c = false
  end.

Definition trimmed (s : str) : Prop :=
  starts_clean s /\ starts_clean (rev s).

(** ** A small web, for concrete runs *)
Module Example.

Definition base : str := py "https://example.com".

(** The home page: two anchors, the first to [/legal/privacy-policy],
    the second to [/privacy]. *)
Definition home : Soup :=
  mkSoup [ (py "/legal/privacy-policy", mkTag [py "Legal"]);
           (py "/privacy", mkTag [py "Privacy"]) ]
         (fun _ => []) (fun _ => []).

(** A policy page whose [main] element holds ten characters. *)
Definition short_policy : Soup :=
  mkSoup []
         (fun sel => if str_eqb sel (py "main")
                     then [mkTag [py "Too short."]] else [])
         (fun _ => []).

(** A page with an empty [main] element and a [.content] element that
    holds the text. *)
Definition empty_main : Soup :=
  mkSoup []
         (fun sel => if str_eqb sel (py "main") then [mkTag []]
                     else if str_eqb sel (py ".content")
                     then [mkTag [py "Policy text"]] else [])
         (fun _ => []).

Definition ok (body : str) : Response := mkResponse 200 body (Return tt).

(** [example.com] answers; every other host is unreachable. *)
Definition world : World :=
  mkWorld
    (fun _ url =>
       if str_eqb url base then Return (ok (py "home"))
       else if startswith url base then Return (ok (py "policy"))
       else Raise (py "connection error"))
    (fun _ _ => Raise (py "connection error"))
    (fun body =>
       if str_eqb body (py "home") then Return home
       else Return short_policy)
    (fun _ soup => soup)
    (fun b u => Return (b ++ u))
    (fun site => site).

Definition long_text : str := repeat "a"%char (50 * 1000 + 1).

End Example.

(** ** Notions used in the statements *)

Definition schemes : list str := [py "http://"; py "https://"].

(** What the truncation law says of a cut [out] of [s] at [n] characters
    with the marker [m]. *)
Definition cut_with (n : nat) (m s out : str) : Prop :=
  len out = n + len m
  /\ firstn n out = firstn n s
  /\ skipn n out = m.

(** The least number of characters a pattern takes. *)
Definition min_len (p : pattern) : nat :=
  fold_right (fun aq n => qmin (snd aq) + n) 0 p.

(** Some atom of the pattern accepts the character. *)
Definition accepted (p : pattern) (c : ascii) : bool :=
  existsb (fun aq => atom_matches (fst aq) c) p.

Definition is_nl (c : ascii) : bool := Ascii.eqb c nl.

(** The GET of [url] after the requests [t] fails: the request raises, or
    [raise_for_status] raises on its response. *)
Definition get_fails (w : World) (t : trace) (url : str) : Prop :=
  (exists e, session_get w t url = Raise e)
  \/ (exists r e, session_get w t url = Return r
                  /\ raise_for_status r = Raise e).

(** The GET of [url] succeeds with a body that parses to [soup]. *)
Definition get_parses (w : World) (t : trace) (url : str) (soup : Soup)
    : Prop :=
  exists r, session_get w t url = Return r
            /\ raise_for_status r = Return tt
            /\ BeautifulSoup w (text r) = Return soup.

(** The invariant of a result, as far as it holds: success goes with a
    kept text of at least 100 characters once stripped, and with a policy
    URL. *)
Definition status_invariant (r : Result) : Prop :=
  (status r = py "success"
   <-> result_text r <> [] /\ 100 <= len (strip (result_text r)))
  /\ (status r = py "success" -> policy_url r <> []).

Ltac settle_invariant :=
  eexists; eexists; split; [reflexivity|];
  split; [reflexivity|];
  split; [split|]; cbn [status result_text policy_url];
  try (intros [N _]; now contradiction N); try discriminate;
  try (intros _; reflexivity).

(** Every task returns a result, for its own site. *)
Definition returned (f : Future) : Prop :=
  exists r, snd f = Return r /\ site r = fst f.

(** The HEAD probe of [url] finds the page, whenever it is made. *)
Definition head_hits (w : World) (url : str) : Prop :=
  forall t, exists r, session_head w t url = Return r
                      /\ status_code r = 200.

(** The HEAD probe of [url] raises or answers with another status than
    200, whenever it is made. *)
Definition head_misses (w : World) (url : str) : Prop :=
  forall t, match session_head w t url with
            | Return r => status_code r <> 200
            | Raise _ => True
            end.

(** [s] holds [needle] somewhere. *)
Definition contains (needle s : str) : Prop :=
  exists before after, s = before ++ needle ++ after.

(** Whitespace occurs in [s] only as single spaces; [after_space] tells
    that the character before was one. *)
Fixpoint single_spaced (after_space : bool) (s : str) : bool :=
  match s with
  | [] => true
  | c :: s' =>
      if isspace c
      then Ascii.eqb c space && negb after_space && single_spaced true s'
      else single_spaced false s'
  end.

(** No run of newlines in [s] is longer than two; [seen] counts the
    newlines just before. *)
Fixpoint newline_runs_short (seen : nat) (s : str) : bool :=
  match s with
  | [] => true
  | c :: s' =>
      if is_nl c then (seen <? 2) && newline_runs_short (S seen) s'
      else newline_runs_short 0 s'
  end.

Definition is_head (e : event) : bool :=
  match e with HEAD _ => true | GET _ => false end.

(** The most repetitions the atom [a] with the quantifier [q] can take at
    the head of [s]. *)
Definition most (a : atom) (q : quant) (s : str) : nat :=
  match qmax q with
  | Some m => Nat.min m (span (atom_matches a) s)
  | None => span (atom_matches a) s
  end.

(** The pattern that matches the text [word] and nothing else. *)
Definition literal (word : str) : pattern :=
  map (fun c => (Chr c, once)) word.

(** The pattern [p] matches at the head of [s]. *)
Definition matches_here (p : pattern) (s : str) : Prop :=
  exists m, match_here p s = Some m.

Definition PRIVACY : pattern := literal (py "privacy").

Definition DATA_PROTECTION : pattern :=
  literal (py "data")
    ++ (OneOf ["_"%char; "-"%char], opt) :: literal (py "protection").

(** [s] holds one of the words the patterns look for. *)
Definition says_privacy (s : str) : Prop :=
  contains (py "privacy") s
  \/ contains (py "dataprotection") s
  \/ contains (py "data_protection") s
  \/ contains (py "data-protection") s.

(** Every pattern of either file is [data[_-]?protection] or holds the
    word [privacy]. *)
Definition privacy_or_data (p : pattern) : Prop :=
  p = DATA_PROTECTION \/ exists pre post, p = pre ++ PRIVACY ++ post.

(** The GET of [url] gives a body that cannot be parsed. *)
Definition parse_fails (w : World) (t : trace) (url : str) : Prop :=
  exists r e, session_get w t url = Return r
              /\ raise_for_status r = Return tt
              /\ BeautifulSoup w (text r) = Raise e.

(** What the extractor returns for [url]: nothing when the fetch or the
    parse fails, else the text [page_text] takes from the parsed page,
    which is at most [bound] characters long. *)
Definition extracted (w : World) (t : trace) (url : str)
    (page_text : World -> Soup -> str) (bound : nat) (o : option str)
    : Prop :=
  match o with
  | Some text =>
      exists soup, get_parses w t url soup
                   /\ text = page_text w soup
                   /\ len text <= bound
  | None => get_fails w t url \/ parse_fails w t url
  end.

(** The request for the policy page of a result: none when the result
    has no policy URL. *)
Definition policy_fetch (r : Result) : list event :=
  match policy_url r with
  | [] => []
  | u => [GET u]
  end.

(** The requests of one worker: the GET of the home page, then at most
    [probes] HEAD requests, then the request for the policy page, if
    any. *)
Definition worker_requests (base : str) (probes : nat) (r : Result)
    (requests : list event) : Prop :=
  exists hs, requests = GET base :: hs ++ policy_fetch r
             /\ forallb is_head hs = true
             /\ length hs <= probes.

(** The cells of [row] in the given columns. *)
Definition pick (columns : list nat) (row : list cell) : list cell :=
  map (fun i => nth i row (Text [])) columns.

Definition succeeded (r : Result) : bool :=
  str_eqb (status r) (py "success").

(** A site whose home page links to a policy page of 500 characters. *)
Module Success.

Definition base : str := py "https://example.net".

Definition home : Soup :=
  mkSoup [ (py "/about", mkTag [py "About"]);
           (py "/legal", mkTag [py " Privacy Notice "]) ]
         (fun _ => []) (fun _ => []).

Definition policy : Soup :=
  mkSoup []
         (fun sel => if str_eqb sel (py "article")
                     then [mkTag [repeat "a"%char 500]] else [])
         (fun _ => []).

Definition world : World :=
  mkWorld
    (fun _ url =>
       if str_eqb url base
       then Return (mkResponse 200 (py "home") (Return tt))
       else Return (mkResponse 200 (py "policy") (Return tt)))
    (fun _ _ => Raise (py "timed out"))
    (fun body => if str_eqb body (py "home") then Return home
                 else Return policy)
    (fun _ soup => soup)
    (fun b u => Return (b ++ u))
    (fun site => site).

End Success.

(** What a URL returned by the resolver can be. *)
Definition linked_or_probed (w : World) (pats : list pattern)
    (paths : list str) (t : trace) (base u : str) : Prop :=
  exists soup,
    get_parses w t base soup
    /\ ((exists a, In a (find_all_a_href soup)
                   /\ anchor_matches pats a = true
                   /\ urljoin w base (fst a) = Return u)
        \/ (exists path th r, In path paths
                              /\ urljoin w base path = Return u
                              /\ session_head w th u = Return r
                              /\ status_code r = 200)).

(** A site without a privacy link on its home page, for the guessed
    paths: [/privacy] exists, [/privacy-policy] answers 404 and every
    other probe times out. *)
Module Fallback.

Definition base : str := py "https://example.org".

Definition bare : Soup :=
  mkSoup [ (py "/about", mkTag [py "About us"]) ]
         (fun _ => []) (fun _ => []).

Definition world : World :=
  mkWorld
    (fun _ url =>
       if str_eqb url base
       then Return (mkResponse 200 (py "bare") (Return tt))
       else Raise (py "connection error"))
    (fun _ url =>
       if str_eqb url (base ++ py "/privacy")
       then Return (mkResponse 200 [] (Return tt))
       else if str_eqb url (base ++ py "/privacy-policy")
       then Return (mkResponse 404 [] (Return tt))
       else Raise (py "timed out"))
    (fun _ => Return bare)
    (fun _ soup => soup)
    (fun b u => Return (b ++ u))
    (fun site => site).

(** A world in which nothing answers a probe. *)
Definition silent : World :=
  mkWorld (session_get world) (fun _ _ => Raise (py "timed out"))
          (BeautifulSoup world) (decompose world) (urljoin world)
          (company_of world).

End Fallback.

(** One of the patterns is found somewhere in [s]. *)
Definition found_by (pats : list pattern) (s : str) : Prop :=
  exists pat, In pat pats /\ search pat s = true.

(** The anchor is a privacy link: one of the patterns is found in its
    lower-cased href or in its lower-cased visible text. *)
Definition privacy_link (pats : list pattern) (a : str * Tag) : Prop :=
  found_by pats (lower (fst a))
  \/ found_by pats (lower (get_text [] (snd a))).

(** What the resolver makes of the first privacy link: its href joined to
    the base URL, or nothing when [urljoin] raises on it. *)
Definition joined (w : World) (base : str) (a : str * Tag) : option str :=
  match urljoin w base (fst a) with
  | Return u => Some u
  | Raise _ => None
  end.

(** Home pages made of anchors only, on a site that answers every GET and
    no HEAD.  [urljoin] raises on an href with an unclosed bracket after
    the scheme, as [urllib] does ("Invalid IPv6 URL"). *)
Module Links.

Definition base : str := py "https://example.com".

Definition page (anchors : list (str * Tag)) : Soup :=
  mkSoup anchors (fun _ => []) (fun _ => []).

Definition world (anchors : list (str * Tag)) : World :=
  mkWorld
    (fun _ _ => Return (mkResponse 200 (py "home") (Return tt)))
    (fun _ _ => Raise (py "timed out"))
    (fun _ => Return (page anchors))
    (fun _ soup => soup)
    (fun b u => if startswith u (py "http://[")
                then Raise (py "Invalid IPv6 URL")
                else Return (b ++ u))
    (fun site => site).

Definition about : str * Tag := (py "/about", mkTag [py "About us"]).

(** An anchor that matches by its href only, and only once lower-cased. *)
Definition by_href : str * Tag :=
  (py "/Legal/PRIVACY-Policy", mkTag [py "Legal"]).

(** An anchor that matches by its text only, and only once lower-cased. *)
Definition by_text : str * Tag :=
  (py "/legal/terms", mkTag [py " Privacy Notice "]).

Definition short : str * Tag := (py "/privacy", mkTag [py "Privacy"]).

(** An anchor that matches and whose href [urljoin] refuses. *)
Definition broken : str * Tag :=
  (py "http://[privacy", mkTag [py "Privacy"]).

End Links.

(** A run whose pause raises, and one whose domain lookup raises. *)
Definition negative_pause : Runtime :=
  mkRuntime (Raise (py "sleep length must be non-negative"))
            (fun site => Return site).

Definition no_lookup : Runtime :=
  mkRuntime (Return tt) (fun _ => Raise (py "lookup failed")).

(** A run whose pause and domain lookup both return. *)
Definition prompt : Runtime :=
  mkRuntime (Return tt) (fun site => Return site).

Ltac privacy_or_data :=
  first [ left; reflexivity
        | right; exists []; eexists; reflexivity
        | right; exists (literal (py "legal/")); eexists; reflexivity
        | right; exists (literal (py "about/")); eexists; reflexivity
        | right; exists (literal (py "support/")); eexists; reflexivity ].

Ltac worker_case hs :=
  rewrite <- ?app_assoc;
  eexists; eexists; split; [reflexivity|];
  split;
  [ exists hs; cbn [policy_fetch policy_url app]; rewrite ?app_nil_r;
    repeat split; assumption
  | cbn [status]; auto ].


(** * Properties *)

(** ** Concrete runs of the embedded library pieces *)

Example compile_newline_gap :
  re_compile "\n\s*\n"
  = Some [(Chr nl, once); (Whitespace, star); (Chr nl, once)].
Proof. reflexivity. Qed.

Example compile_outside_fragment : re_compile "a|b" = None.
Proof. reflexivity. Qed.

Example search_optional_dash :
  search (re "privacy[_-]?policy") (py "/legal/privacy-policy") = true
  /\ search (re "privacy[_-]?policy") (py "/privacypolicy") = true
  /\ search (re "privacy[_-]?policy") (py "/privacy--policy") = false.
Proof. repeat split. Qed.

Example source_patterns_compile :
  forallb (fun text => match re_compile text with
                       | Some _ => true
                       | None => false
                       end)
    [ "privacy[_-]?policy"; "privacy[_-]?statement"; "privacy[_-]?notice";
      "data[_-]?protection"; "privacy"; "legal/privacy"; "about/privacy";
      "support/privacy"; "\n\s*\n"; "\s+"; "\n{2,}" ]%string
  = true.
Proof. reflexivity. Qed.

Example sub_empty_matches :
  sub (re "x*") (py "-") (py "abxd") = py "-a-b--d-".
Proof. reflexivity. Qed.

Example strip_both_ends :
  strip (py "  a b " ++ [nl]) = py "a b".
Proof. reflexivity. Qed.

Example lower_ascii :
  lower (py "HTTPS://Example.COM") = py "https://example.com".
Proof. reflexivity. Qed.

Example get_text_strips_and_joins :
  get_text [nl] (mkTag [py " Privacy "; py "   "; py "Policy"])
  = py "Privacy" ++ [nl] ++ py "Policy".
Proof. reflexivity. Qed.

Example main_clean_run :
  Main.clean (py "a" ++ [nl; space; nl] ++ py "b   c")
  = py "a b c".
Proof. reflexivity. Qed.

Example new_clean_run :
  NewMain.clean (py " a" ++ [nl; nl; nl] ++ py "b   c" ++ [nl])
  = py "a" ++ [nl; nl] ++ py "b   c".
Proof. reflexivity. Qed.

(** ** URL normalisation *)

Lemma startswith_app (p s : str) : startswith (p ++ s) p = true.
Proof.
  induction p as [|c p IH]; simpl; [reflexivity|].
  now rewrite Ascii.eqb_refl, IH.
Qed.

Lemma normalize_url_unfold (u : str) :
  normalize_url u =
  if negb (startswith_any u schemes) then py "https://" ++ u else u.
Proof. reflexivity. Qed.

Lemma normalize_url_has_scheme (u : str) :
  startswith_any (normalize_url u) schemes = true.
Proof.
  rewrite normalize_url_unfold.
  destruct (startswith_any u schemes) eqn:E; cbn [negb]; [exact E|].
  unfold startswith_any, schemes. cbn [existsb].
  rewrite (startswith_app (py "https://") u).
  now rewrite orb_true_r.
Qed.

(** C9.  [normalize_url "example.com"] is ["https://example.com"]; an input
    that already starts with ["http://"] or ["https://"] comes back
    unchanged; and the function is idempotent. *)
Theorem normalize_url_idempotent :
  normalize_url (py "example.com") = py "https://example.com"
  /\ (forall u, startswith u (py "http://") = true
                \/ startswith u (py "https://") = true ->
                normalize_url u = u)
  /\ (forall u, normalize_url (normalize_url u) = normalize_url u).
Proof.
  split; [reflexivity|]. split.
  - intros u H. rewrite normalize_url_unfold.
    unfold startswith_any, schemes. cbn [existsb].
    destruct H as [H|H]; rewrite H; [reflexivity|].
    now rewrite orb_true_r.
  - intros u. rewrite (normalize_url_unfold (normalize_url u)).
    now rewrite normalize_url_has_scheme.
Qed.

Lemma normalize_url_idempotent_witness :
  startswith (py "http://example.com") (py "http://") = true
  /\ normalize_url (py "http://example.com") = py "http://example.com".
Proof.
  split; [reflexivity|].
  apply (proj1 (proj2 normalize_url_idempotent)).
  left. reflexivity.
Defined.

(** C10.  Only the exact lower-case prefixes ["http://"] and ["https://"]
    are looked for: any other input, a scheme of another form included,
    gets ["https://"] put in front of it unchanged, and no input is
    rejected or stripped of anything. *)
Theorem normalize_url_prepends :
  forall u,
    startswith u (py "http://") = false ->
    startswith u (py "https://") = false ->
    normalize_url u = py "https://" ++ u.
Proof.
  intros u H1 H2. rewrite normalize_url_unfold.
  unfold startswith_any, schemes. cbn [existsb].
  now rewrite H1, H2.
Qed.

Lemma normalize_url_prepends_witness :
  normalize_url (py "ftp://example.com") = py "https://ftp://example.com"
  /\ normalize_url (py "HTTPS://example.com")
     = py "https://HTTPS://example.com".
Proof.
  split.
  - apply (normalize_url_prepends (py "ftp://example.com")); reflexivity.
  - apply (normalize_url_prepends (py "HTTPS://example.com")); reflexivity.
Defined.

(** ** Truncation *)

Lemma main_truncate_long (s : str) :
  Main.MAX_CHARS < len s ->
  Main.truncate s = firstn Main.MAX_CHARS s ++ Main.marker.
Proof.
  intros H. unfold Main.truncate.
  now apply Nat.ltb_lt in H; rewrite H.
Qed.

Lemma main_truncate_short (s : str) :
  len s <= Main.MAX_CHARS -> Main.truncate s = s.
Proof.
  intros H. unfold Main.truncate.
  destruct (Main.MAX_CHARS <? len s) eqn:E; [|reflexivity].
  apply Nat.ltb_lt in E. lia.
Qed.

Lemma new_truncate_long (s : str) :
  NewMain.MAX_CHARS < len s ->
  NewMain.truncate s = firstn NewMain.MAX_CHARS s ++ NewMain.marker.
Proof.
  intros H. unfold NewMain.truncate.
  now apply Nat.ltb_lt in H; rewrite H.
Qed.

Lemma new_truncate_short (s : str) :
  len s <= NewMain.MAX_CHARS -> NewMain.truncate s = s.
Proof.
  intros H. unfold NewMain.truncate.
  destruct (NewMain.MAX_CHARS <? len s) eqn:E.
  - apply Nat.ltb_lt in E. lia.
  - rewrite app_nil_r. apply firstn_all2. exact H.
Qed.

Lemma cut_with_app (n : nat) (m s : str) :
  n < len s -> cut_with n m s (firstn n s ++ m).
Proof.
  intros H. unfold cut_with, len in *.
  assert (L : length (firstn n s) = n) by (rewrite length_firstn; lia).
  repeat split.
  - now rewrite length_app, L.
  - rewrite firstn_app, L, Nat.sub_diag. cbn [firstn].
    rewrite app_nil_r. rewrite firstn_firstn. f_equal. lia.
  - rewrite skipn_app, L, Nat.sub_diag. cbn [skipn].
    rewrite (skipn_all2 (firstn n s)) by lia. reflexivity.
Qed.

(** C3, as the code has it.  A cleaned text longer than 50,000 characters
    comes back as its first 50,000 characters followed by the marker and
    nothing else, and a text of at most 50,000 characters comes back as it
    is; the marker is ["... [Content truncated]"] in [main.py] and
    ["... [Truncated]"] in [new_main.py]. *)
Theorem truncation_law :
  forall s,
    (Main.MAX_CHARS < len s ->
       cut_with (50 * 1000) (py "... [Content truncated]") s
                (Main.truncate s)
       /\ cut_with (50 * 1000) (py "... [Truncated]") s
                   (NewMain.truncate s))
    /\ (len s <= Main.MAX_CHARS ->
          Main.truncate s = s /\ NewMain.truncate s = s).
Proof.
  intros s. split; intros H.
  - rewrite (main_truncate_long s H), (new_truncate_long s H).
    split; apply cut_with_app; exact H.
  - split; [apply main_truncate_short | apply new_truncate_short]; exact H.
Qed.

Lemma long_text_len : len Example.long_text = Main.MAX_CHARS + 1.
Proof. unfold Example.long_text, len. apply repeat_length. Qed.

Lemma truncation_law_witness :
  cut_with (50 * 1000) (py "... [Content truncated]") Example.long_text
           (Main.truncate Example.long_text)
  /\ Main.truncate (py "short") = py "short".
Proof.
  split.
  - apply (proj1 (truncation_law Example.long_text)).
    rewrite long_text_len. lia.
  - apply (proj2 (truncation_law (py "short"))).
    unfold Main.MAX_CHARS. cbn [len py list_ascii_of_string length]. lia.
Defined.

(** C3 as stated fails on [new_main.py]: a text of 50,001 characters
    comes back 50,015 characters long, ending in ["... [Truncated]"], not
    50,000 plus the 23 characters of ["... [Content truncated]"]. *)
Lemma truncation_marker_differs :
  NewMain.MAX_CHARS < len Example.long_text
  /\ len (NewMain.truncate Example.long_text) = 50 * 1000 + 15
  /\ len (NewMain.truncate Example.long_text)
     <> 50 * 1000 + len (py "... [Content truncated]")
  /\ skipn (50 * 1000) (NewMain.truncate Example.long_text)
     <> py "... [Content truncated]".
Proof.
  assert (H : NewMain.MAX_CHARS < len Example.long_text)
    by (rewrite long_text_len; unfold Main.MAX_CHARS, NewMain.MAX_CHARS; lia).
  destruct (cut_with_app NewMain.MAX_CHARS NewMain.marker _ H)
    as (L & _ & K).
  rewrite <- (new_truncate_long _ H) in L, K.
  split; [exact H|]. unfold NewMain.MAX_CHARS in L, K.
  rewrite K, L. repeat split.
  - cbn [len NewMain.marker py list_ascii_of_string length]. lia.
  - discriminate.
Qed.

(** ** The matcher *)

Lemma backtrack_first (try : nat -> option nat) (lo d r : nat) :
  try (lo + d) = Some r -> backtrack try lo d = Some r.
Proof. intros H. destruct d; cbn [backtrack]; now rewrite H. Qed.

Lemma backtrack_found (try : nat -> option nat) (lo d r : nat) :
  backtrack try lo d = Some r ->
  exists k, lo <= k <= lo + d /\ try k = Some r.
Proof.
  induction d as [|d IH]; cbn [backtrack].
  - destruct (try (lo + 0)) eqn:E; [|discriminate].
    intros [= <-]. exists (lo + 0). split; [lia|exact E].
  - destruct (try (lo + S d)) eqn:E.
    + intros [= <-]. exists (lo + S d). split; [lia|exact E].
    + intros H. destruct (IH H) as (k & Hk & Hr).
      exists k. split; [lia|exact Hr].
Qed.

Lemma firstn_add (k m : nat) (s : str) :
  firstn (k + m) s = firstn k s ++ firstn m (skipn k s).
Proof.
  revert s. induction k as [|k IH]; intros s; [reflexivity|].
  destruct s as [|c s].
  - cbn [Nat.add firstn skipn]. now rewrite firstn_nil.
  - cbn [Nat.add firstn skipn app]. now rewrite IH.
Qed.

Lemma span_le (f : ascii -> bool) (s : str) : span f s <= length s.
Proof.
  induction s as [|c s IH]; cbn [span length]; [lia|].
  destruct (f c); lia.
Qed.

Lemma span_forallb (f : ascii -> bool) (s : str) (k : nat) :
  k <= span f s -> forallb f (firstn k s) = true.
Proof.
  revert k. induction s as [|c s IH]; intros k H.
  - now rewrite firstn_nil.
  - destruct k as [|k]; [reflexivity|].
    cbn [span] in H. cbn [firstn forallb].
    destruct (f c); [|lia]. apply IH. lia.
Qed.

(** A pattern with one atom and no upper bound matches the whole run of
    that atom, when the run is long enough. *)
Lemma match_here_run (a : atom) (m : nat) (s : str) :
  match_here [(a, mkQuant m None)] s =
  if span (atom_matches a) s <? m then None
  else Some (span (atom_matches a) s).
Proof.
  cbn [match_here qmax qmin].
  destruct (span (atom_matches a) s <? m) eqn:E; [reflexivity|].
  apply Nat.ltb_ge in E. apply backtrack_first.
  cbn [match_here option_map]. f_equal. lia.
Qed.

Lemma forallb_weaken (f g : ascii -> bool) (s : str) :
  (forall c, f c = true -> g c = true) ->
  forallb f s = true -> forallb g s = true.
Proof.
  intros H. induction s as [|c s IH]; [reflexivity|].
  cbn [forallb]. intros K. apply andb_true_iff in K as [K1 K2].
  now rewrite (H _ K1), IH.
Qed.

(** A match lies within the string, is at least as long as the pattern
    asks, and holds only characters its atoms accept. *)
Lemma match_here_sound (p : pattern) :
  forall s m,
    match_here p s = Some m ->
    min_len p <= m <= length s
    /\ forallb (accepted p) (firstn m s) = true.
Proof.
  induction p as [|[a q] p IH]; intros s m.
  - intros [= <-]. cbn. split; [lia|reflexivity].
  - cbn [match_here].
    set (avail := span (atom_matches a) s).
    set (hi := match qmax q with Some b => Nat.min b avail | None => avail end).
    assert (Hhi : hi <= avail) by (subst hi; destruct (qmax q); lia).
    destruct (hi <? qmin q) eqn:E; [discriminate|].
    apply Nat.ltb_ge in E. intros H.
    apply backtrack_found in H as (k & Hk & Hr).
    destruct (match_here p (skipn k s)) as [m'|] eqn:M; [|discriminate].
    cbn [option_map] in Hr. injection Hr as <-.
    destruct (IH _ _ M) as [[L1 L2] A].
    rewrite length_skipn in L2.
    assert (Kav : k <= avail) by lia.
    assert (Ks : k <= length s)
      by (pose proof (span_le (atom_matches a) s); subst avail; lia).
    cbn [min_len fold_right snd]. fold (min_len p).
    split; [lia|].
    rewrite firstn_add.
    rewrite forallb_app. apply andb_true_iff. split.
    + apply (forallb_weaken (atom_matches a)).
      * intros c Hc. unfold accepted. cbn [existsb fst]. now rewrite Hc.
      * apply span_forallb. exact Kav.
    + apply (forallb_weaken (accepted p)); [|exact A].
      intros c Hc. unfold accepted in *. cbn [existsb].
      now rewrite Hc, orb_true_r.
Qed.

(** ** Whitespace *)

Lemma isspace_nl : isspace nl = true.
Proof. reflexivity. Qed.

Lemma eqb_nl_isspace (c : ascii) : Ascii.eqb c nl = true -> isspace c = true.
Proof. intros H. apply Ascii.eqb_eq in H. now subst c. Qed.

Lemma collapse_runs_ws (ws t : str) (b : bool) :
  ws <> [] -> forallb isspace ws = true ->
  collapse_runs b (ws ++ t)
  = (if b then [] else [space]) ++ collapse_runs true t.
Proof.
  revert b. induction ws as [|c ws IH]; intros b N H; [contradiction|].
  cbn [forallb] in H. apply andb_true_iff in H as [Hc Hw].
  cbn [app collapse_runs]. rewrite Hc.
  destruct ws as [|c' ws].
  - destruct b; reflexivity.
  - destruct b; rewrite (IH true) by (discriminate || assumption);
      reflexivity.
Qed.

Lemma collapse_runs_last (s : str) (c : ascii) (b : bool) :
  isspace c = false ->
  collapse_runs b (s ++ [c]) = collapse_runs b s ++ [c].
Proof.
  intros Hc. revert b. induction s as [|x s IH]; intros b.
  - cbn. now rewrite Hc.
  - cbn [app collapse_runs].
    destruct (isspace x); [destruct b|]; cbn [app]; now rewrite IH.
Qed.

(** *** [re.sub(r'\s+', ' ', s)] replaces every run by one space *)

Lemma sub_whitespace_runs (s : str) :
  sub_from Main.WHITESPACE [space] 0 s = collapse_runs false s
  /\ sub_from Main.WHITESPACE [space] (span isspace s) s
     = collapse_runs true s.
Proof.
  induction s as [|c s [IH0 IH1]]; [split; reflexivity|].
  assert (H0 : sub_from Main.WHITESPACE [space] 0 (c :: s)
               = collapse_runs false (c :: s)).
  { cbn [sub_from]. unfold Main.WHITESPACE.
    rewrite (match_here_run Whitespace 1 (c :: s)).
    cbn [atom_matches span collapse_runs].
    change (fun c0 => isspace c0) with isspace.
    destruct (isspace c) eqn:Hc.
    - cbn [Nat.ltb Nat.leb app]. fold Main.WHITESPACE.
      f_equal. exact IH1.
    - cbn [Nat.ltb Nat.leb]. fold Main.WHITESPACE. now rewrite IH0. }
  split; [exact H0|].
  cbn [span]. destruct (isspace c) eqn:Hc.
  - cbn [sub_from collapse_runs]. now rewrite Hc.
  - rewrite H0. cbn [collapse_runs]. now rewrite Hc.
Qed.

(** *** [re.sub(r'\n\s*\n', '\n\n', s)] changes whitespace only *)

Lemma newline_gap_accepts (c : ascii) :
  accepted Main.NEWLINE_GAP c = true -> isspace c = true.
Proof.
  unfold accepted, Main.NEWLINE_GAP. cbn [existsb fst atom_matches].
  rewrite orb_false_r. intros H.
  apply orb_true_iff in H as [H|H]; [now apply eqb_nl_isspace|].
  apply orb_true_iff in H as [H|H]; [exact H | now apply eqb_nl_isspace].
Qed.

Lemma newline_gap_match (s : str) (m : nat) :
  match_here Main.NEWLINE_GAP s = Some m ->
  2 <= m <= length s /\ forallb isspace (firstn m s) = true.
Proof.
  intros H. apply match_here_sound in H as [L A]. split.
  - exact L.
  - apply (forallb_weaken (accepted Main.NEWLINE_GAP)); [|exact A].
    exact newline_gap_accepts.
Qed.

Lemma sub_newline_gap_keeps_runs (s : str) :
  (forall b, collapse_runs b (sub_from Main.NEWLINE_GAP [nl; nl] 0 s)
             = collapse_runs b s)
  /\ (forall n, n <= length s -> forallb isspace (firstn n s) = true ->
                collapse_runs true (sub_from Main.NEWLINE_GAP [nl; nl] n s)
                = collapse_runs true (skipn n s)).
Proof.
  induction s as [|c s [IH0 IH1]].
  - split; [reflexivity|]. intros n Hn _. cbn in Hn.
    replace n with 0 by lia. reflexivity.
  - assert (H0 : forall b,
               collapse_runs b (sub_from Main.NEWLINE_GAP [nl; nl] 0 (c :: s))
               = collapse_runs b (c :: s)).
    { intros b. cbn [sub_from].
      destruct (match_here Main.NEWLINE_GAP (c :: s)) as [m|] eqn:M.
      - apply newline_gap_match in M as [[L1 L2] W].
        destruct m as [|k]; [lia|].
        cbn [length] in L2. cbn [firstn] in W.
        rewrite (collapse_runs_ws [nl; nl]) by (discriminate || reflexivity).
        rewrite IH1.
        2: lia.
        2:{ cbn [forallb] in W. now apply andb_true_iff in W as [_ W]. }
        rewrite <- (firstn_skipn k s) at 2.
        change (c :: firstn k s ++ skipn k s)
          with ((c :: firstn k s) ++ skipn k s).
        now rewrite (collapse_runs_ws (c :: firstn k s))
          by (discriminate || assumption).
      - cbn [collapse_runs].
        destruct (isspace c); [destruct b|]; now rewrite IH0. }
    split; [exact H0|].
    intros [|k] Hn W; [apply H0|].
    cbn [sub_from skipn]. cbn [length] in Hn. cbn [firstn forallb] in W.
    apply andb_true_iff in W as [_ W]. apply IH1; [lia|exact W].
Qed.

(** The two substitutions of [main.py] together do what the second one
    does alone: every run of whitespace becomes one space. *)
Lemma main_clean_collapses (s : str) :
  Main.clean s = collapse_whitespace s.
Proof.
  unfold Main.clean, sub, collapse_whitespace.
  rewrite (proj1 (sub_whitespace_runs _)).
  apply (proj1 (sub_newline_gap_keeps_runs s)).
Qed.

(** *** [re.sub(r'\n{2,}', '\n\n', s)] keeps two newlines of a run *)

Lemma newline_runs_fresh (k : nat) (s : str) :
  span is_nl s = 0 ->
  collapse_newline_runs k s = collapse_newline_runs 0 s.
Proof.
  destruct s as [|c s]; [reflexivity|].
  cbn [span collapse_newline_runs]. unfold is_nl.
  destruct (Ascii.eqb c nl); [discriminate|reflexivity].
Qed.

Lemma newline_runs_second (s : str) :
  1 <= span is_nl s ->
  collapse_newline_runs 1 s = nl :: collapse_newline_runs 2 s.
Proof.
  destruct s as [|c s]; cbn [span]; [lia|].
  cbn [collapse_newline_runs]. unfold is_nl.
  destruct (Ascii.eqb c nl); [reflexivity|lia].
Qed.

Lemma sub_newlines_runs (s : str) :
  sub_from NewMain.NEWLINES [nl; nl] 0 s = collapse_newline_runs 0 s
  /\ sub_from NewMain.NEWLINES [nl; nl] (span is_nl s) s
     = collapse_newline_runs 2 s.
Proof.
  induction s as [|c s [IH0 IH1]]; [split; reflexivity|].
  assert (H0 : sub_from NewMain.NEWLINES [nl; nl] 0 (c :: s)
               = collapse_newline_runs 0 (c :: s)).
  { cbn [sub_from].
    change (match_here NewMain.NEWLINES (c :: s))
      with (match_here [(Chr nl, mkQuant 2 None)] (c :: s)).
    rewrite (match_here_run (Chr nl) 2 (c :: s)).
    change (atom_matches (Chr nl)) with is_nl.
    cbn [span collapse_newline_runs].
    change (Ascii.eqb c nl) with (is_nl c).
    destruct (is_nl c) eqn:Hc.
    - assert (c = nl) by (now apply Ascii.eqb_eq). subst c.
      destruct (span is_nl s) as [|k] eqn:Hs.
      + change (1 <? 2) with true. cbv iota. rewrite IH0.
        now rewrite (newline_runs_fresh 1 s Hs).
      + change (S (S k) <? 2) with false. cbv iota.
        cbn [app]. rewrite IH1.
        rewrite newline_runs_second by lia. reflexivity.
    - change (0 <? 2) with true. cbv iota. now rewrite IH0. }
  split; [exact H0|].
  cbn [span]. destruct (is_nl c) eqn:Hc.
  - cbn [sub_from collapse_newline_runs]. fold (is_nl c). now rewrite Hc.
  - rewrite H0. cbn [collapse_newline_runs]. fold (is_nl c). now rewrite Hc.
Qed.

(** *** [strip] *)

Lemma lstrip_clean (s : str) : starts_clean (lstrip s).
Proof.
  induction s as [|c s IH]; cbn [lstrip]; [exact I|].
  destruct (isspace c) eqn:Hc; [exact IH | exact Hc].
Qed.

Lemma lstrip_suffix (s : str) : exists pre, s = pre ++ lstrip s.
Proof.
  induction s as [|c s [pre IH]]; [now exists []|].
  cbn [lstrip]. destruct (isspace c).
  - exists (c :: pre). cbn [app]. now f_equal.
  - now exists [].
Qed.

Lemma lstrip_id (s : str) : starts_clean s -> lstrip s = s.
Proof.
  destruct s as [|c s]; [reflexivity|].
  cbn [starts_clean lstrip]. now intros ->.
Qed.

Lemma starts_clean_app (x y : str) :
  x <> [] -> starts_clean x -> starts_clean (x ++ y).
Proof. destruct x as [|c x]; [contradiction|]. intros _ H. exact H. Qed.

Lemma strip_trimmed (s : str) : trimmed (strip s).
Proof.
  unfold trimmed, strip, rstrip. rewrite rev_involutive.
  split; [|apply lstrip_clean].
  destruct (lstrip_suffix (rev (lstrip s))) as [pre E].
  apply (f_equal (@rev ascii)) in E.
  rewrite rev_involutive, rev_app_distr in E.
  pose proof (lstrip_clean s) as C. rewrite E in C.
  destruct (rev (lstrip (rev (lstrip s)))) as [|c r]; [exact I|].
  exact C.
Qed.

Lemma strip_id (s : str) : trimmed s -> strip s = s.
Proof.
  intros [A B]. unfold strip, rstrip.
  now rewrite (lstrip_id s A), (lstrip_id (rev s) B), rev_involutive.
Qed.

(** [new_main.py]: the cleaned text is the stripped text with its newline
    runs collapsed. *)
Lemma new_clean_collapses (s : str) :
  NewMain.clean s = strip (collapse_newlines s).
Proof.
  unfold NewMain.clean, sub, collapse_newlines.
  now rewrite (proj1 (sub_newlines_runs s)).
Qed.

(** *** The text handed to [clean] in [main.py] is trimmed already *)

Lemma collapse_whitespace_trimmed (s : str) :
  trimmed s -> trimmed (collapse_whitespace s).
Proof.
  intros [A B]. unfold collapse_whitespace. split.
  - destruct s as [|c s]; [exact I|].
    cbn [starts_clean] in A. cbn [collapse_runs]. rewrite A. exact A.
  - destruct (rev s) as [|c r] eqn:E.
    + apply (f_equal (@rev ascii)) in E. rewrite rev_involutive in E.
      subst s. exact I.
    + apply (f_equal (@rev ascii)) in E. rewrite rev_involutive in E.
      cbn [rev] in E. subst s. cbn [starts_clean] in B.
      rewrite (collapse_runs_last _ _ _ B), rev_app_distr. exact B.
Qed.

Lemma join_trimmed (sep : str) (parts : list str) :
  Forall (fun p => p <> [] /\ trimmed p) parts ->
  trimmed (join sep parts) /\ (parts <> [] -> join sep parts <> []).
Proof.
  induction 1 as [|p rest [Np [A B]] _ [[IA IB] IN]].
  - split; [split; exact I | contradiction].
  - destruct rest as [|q rest].
    + cbn [join]. split; [split; assumption | intros _; exact Np].
    + change (join sep (p :: q :: rest))
        with (p ++ sep ++ join sep (q :: rest)).
      split; [split|].
      * apply starts_clean_app; assumption.
      * rewrite !rev_app_distr, <- app_assoc.
        apply starts_clean_app; [|exact IB].
        intros E. apply (f_equal (@rev ascii)) in E.
        rewrite rev_involutive in E. apply IN; [discriminate|exact E].
      * intros _ E. apply app_eq_nil in E as [E _]. contradiction.
Qed.

Lemma truthy_nonempty (s : str) : truthy s = true -> s <> [].
Proof. destruct s; [discriminate|discriminate]. Qed.

Lemma get_text_trimmed (sep : str) (t : Tag) : trimmed (get_text sep t).
Proof.
  unfold get_text. apply join_trimmed.
  apply Forall_forall. intros p Hp.
  apply filter_In in Hp as [Hp T]. split; [now apply truthy_nonempty|].
  apply in_map_iff in Hp as (x & <- & _). apply strip_trimmed.
Qed.

Lemma longest_text_trimmed (elements : list Tag) (content : str) :
  trimmed content -> trimmed (longest_text content elements).
Proof.
  unfold longest_text. revert content.
  induction elements as [|el els IH]; intros content H; [exact H|].
  cbn [fold_left]. apply IH. unfold longer.
  destruct (len content <? len (get_text [nl] el));
    [apply get_text_trimmed | exact H].
Qed.

Lemma all_text_trimmed (soup : Soup) (names : list str) :
  trimmed (all_text soup names).
Proof.
  unfold all_text. apply join_trimmed.
  apply Forall_forall. intros p Hp.
  apply filter_In in Hp as [Hp T]. split; [now apply truthy_nonempty|].
  apply in_map_iff in Hp as (x & <- & _). apply get_text_trimmed.
Qed.

Lemma main_content_trimmed (soup : Soup) (selectors : list str) :
  forall content, trimmed content ->
                  trimmed (Main.main_content soup content selectors).
Proof.
  induction selectors as [|sel rest IH]; intros content H; [exact H|].
  cbn [Main.main_content].
  destruct (select soup sel) as [|el els] eqn:E; [now apply IH|].
  now apply longest_text_trimmed.
Qed.

Lemma main_raw_content_trimmed (w : World) (soup : Soup) :
  trimmed (Main.raw_content w soup).
Proof.
  unfold Main.raw_content. cbv zeta.
  destruct (negb _); [apply all_text_trimmed|].
  apply main_content_trimmed. split; exact I.
Qed.

(** C5, as the code has it.  [main.py]: the two substitutions leave every
    run of whitespace, newlines included, as one space, so no newline is
    left; there is no trimming step, and the cleaned text of a page has no
    whitespace at either end because the text taken from the page has
    none.  [new_main.py]: every run of two or more newlines becomes exactly
    two and the result is stripped; other whitespace is left as it is. *)
Theorem post_processing :
  (forall s, Main.clean s = collapse_whitespace s)
  /\ (forall s, ~ In nl (Main.clean s))
  /\ (forall w soup, trimmed (Main.clean (Main.raw_content w soup)))
  /\ (forall s, NewMain.clean s = strip (collapse_newlines s))
  /\ (forall s, trimmed (NewMain.clean s)).
Proof.
  split; [exact main_clean_collapses|]. split; [|split; [|split]].
  - intros s. rewrite main_clean_collapses. unfold collapse_whitespace.
    generalize false as b. induction s as [|c s IH]; intros b; [intros []|].
    cbn [collapse_runs]. destruct (isspace c) eqn:Hc.
    + destruct b; [apply IH|]. intros [E|E]; [discriminate|].
      now apply IH in E.
    + intros [E|E]; [|now apply IH in E].
      subst c. discriminate.
  - intros w soup. rewrite main_clean_collapses.
    apply collapse_whitespace_trimmed, main_raw_content_trimmed.
  - exact new_clean_collapses.
  - intros s. unfold NewMain.clean. apply strip_trimmed.
Qed.

(** C5 as stated fails.  In [new_main.py] a run of two spaces stays two
    spaces; in [main.py] a run of two newlines between words is not kept
    as two newlines but becomes one space. *)
Lemma whitespace_not_collapsed :
  NewMain.clean (py "a  b") = py "a  b"
  /\ NewMain.clean (py "a  b") <> collapse_whitespace (py "a  b")
  /\ Main.clean (py "a" ++ [nl; nl] ++ py "b") = py "a b".
Proof. repeat split. discriminate. Qed.

(** ** The resolver *)

Lemma main_find_get_fails (pats : list pattern) (w : World) (site : str)
    (t : trace) :
  get_fails w t (normalize_url site) ->
  Main.find_privacy_policy_url_with pats w site t
  = (Return None, t ++ [GET (normalize_url site)]).
Proof.
  unfold Main.find_privacy_policy_url_with, try_except, bind, get, lift, ret.
  intros [[e H]|(r & e & H & K)]; rewrite H; [reflexivity|].
  now rewrite K.
Qed.

Lemma new_find_get_fails (pats : list pattern) (w : World) (site : str)
    (t : trace) :
  get_fails w t (normalize_url site) ->
  NewMain.find_policy_url_with pats w site t
  = (Return None, t ++ [GET (normalize_url site)]).
Proof.
  unfold NewMain.find_policy_url_with, try_except, bind, get, lift, ret.
  intros [[e H]|(r & e & H & K)]; rewrite H; [reflexivity|].
  now rewrite K.
Qed.

(** C6, as the code has it.  When the first GET fails the resolver
    returns nothing after that one request: no page is parsed and no HEAD
    request is made.  The result has an empty URL and an empty text; its
    status is ["policy_not_found"] in [main.py] and ["not_found"] in
    [new_main.py]. *)
Theorem initial_get_failure :
  forall w site t,
    get_fails w t (normalize_url site) ->
    let after := t ++ [GET (normalize_url site)] in
    Main.find_privacy_policy_url w site t = (Return None, after)
    /\ Main.scrape_single_site w site t
       = (Return (mkResult (company_of w site) site [] []
                           (py "policy_not_found")), after)
    /\ NewMain.find_policy_url w site t = (Return None, after)
    /\ NewMain.scrape_site w site t
       = (Return (mkResult (company_of w site) site [] []
                           (py "not_found")), after).
Proof.
  intros w site t H after.
  pose proof (main_find_get_fails Main.privacy_patterns w site t H) as A.
  pose proof (new_find_get_fails NewMain.patterns w site t H) as B.
  fold (Main.find_privacy_policy_url w site t) in A.
  fold (NewMain.find_policy_url w site t) in B.
  repeat split; try assumption.
  - unfold Main.scrape_single_site, try_except, bind. now rewrite A.
  - unfold NewMain.scrape_site, try_except, bind. now rewrite B.
Qed.

Lemma unreachable_get_fails :
  get_fails Example.world [] (normalize_url (py "unreachable.test")).
Proof. left. exists (py "connection error"). reflexivity. Qed.

Lemma initial_get_failure_witness :
  Main.scrape_single_site Example.world (py "unreachable.test") []
  = (Return (mkResult (py "unreachable.test") (py "unreachable.test")
                      [] [] (py "policy_not_found")),
     [GET (py "https://unreachable.test")]).
Proof.
  apply (initial_get_failure Example.world (py "unreachable.test") []).
  left. exists (py "connection error"). reflexivity.
Defined.

(** C6 as stated fails on [new_main.py]: for an unreachable site the
    status of the result is ["not_found"], not ["policy_not_found"]. *)
Lemma not_found_status_differs :
  get_fails Example.world [] (normalize_url (py "unreachable.test"))
  /\ exists r after,
       NewMain.scrape_site Example.world (py "unreachable.test") []
       = (Return r, after)
       /\ status r = py "not_found"
       /\ status r <> py "policy_not_found".
Proof.
  split; [exact unreachable_get_fails|].
  eexists. eexists. split; [reflexivity|].
  split; [reflexivity|discriminate].
Qed.

Lemma scan_anchors_first (w : World) (pats : list pattern) (base : str)
    (pre post : list (str * Tag)) (a : str * Tag) :
  (forall x, In x pre -> anchor_matches pats x = false) ->
  anchor_matches pats a = true ->
  scan_anchors w pats base (pre ++ a :: post)
  = match urljoin w base (fst a) with
    | Return u => Return (Some u)
    | Raise e => Raise e
    end.
Proof.
  intros Hpre Ha. induction pre as [|x pre IH]; cbn [app scan_anchors].
  - now rewrite Ha.
  - rewrite (Hpre x) by now left. apply IH.
    intros y Hy. apply Hpre. now right.
Qed.

Lemma main_find_first_anchor (pats : list pattern) (w : World)
    (site : str) (t : trace) (soup : Soup) (pre post : list (str * Tag))
    (a : str * Tag) (u : str) :
  get_parses w t (normalize_url site) soup ->
  find_all_a_href soup = pre ++ a :: post ->
  (forall x, In x pre -> anchor_matches pats x = false) ->
  anchor_matches pats a = true ->
  urljoin w (normalize_url site) (fst a) = Return u ->
  Main.find_privacy_policy_url_with pats w site t
  = (Return (Some u), t ++ [GET (normalize_url site)]).
Proof.
  intros (r & G & S & P) E Hpre Ha U.
  unfold Main.find_privacy_policy_url_with, try_except, bind, get, lift, ret.
  rewrite G, S, P, E, (scan_anchors_first w pats _ pre post a Hpre Ha), U.
  reflexivity.
Qed.

Lemma new_find_first_anchor (pats : list pattern) (w : World)
    (site : str) (t : trace) (soup : Soup) (pre post : list (str * Tag))
    (a : str * Tag) (u : str) :
  get_parses w t (normalize_url site) soup ->
  find_all_a_href soup = pre ++ a :: post ->
  (forall x, In x pre -> anchor_matches pats x = false) ->
  anchor_matches pats a = true ->
  urljoin w (normalize_url site) (fst a) = Return u ->
  NewMain.find_policy_url_with pats w site t
  = (Return (Some u), t ++ [GET (normalize_url site)]).
Proof.
  intros (r & G & S & P) E Hpre Ha U.
  unfold NewMain.find_policy_url_with, try_except, bind, get, lift, ret.
  rewrite G, S, P, E, (scan_anchors_first w pats _ pre post a Hpre Ha), U.
  reflexivity.
Qed.

(** A privacy link is what the scan of the anchors stops at. *)
Lemma anchor_matches_spec (pats : list pattern) (a : str * Tag) :
  anchor_matches pats a = true <-> privacy_link pats a.
Proof.
  unfold anchor_matches, privacy_link, found_by.
  rewrite existsb_exists. split.
  - intros (pat & I & H).
    apply orb_true_iff in H as [H|H]; [left|right]; now exists pat.
  - intros [(pat & I & H)|(pat & I & H)]; exists pat;
      (split; [exact I|]); rewrite H; [reflexivity|apply orb_true_r].
Qed.

Lemma scan_anchors_first_link (w : World) (pats : list pattern) (base : str)
    (pre post : list (str * Tag)) (a : str * Tag) :
  Forall (fun x => ~ privacy_link pats x) pre ->
  privacy_link pats a ->
  scan_anchors w pats base (pre ++ a :: post)
  = match urljoin w base (fst a) with
    | Return u => Return (Some u)
    | Raise e => Raise e
    end.
Proof.
  intros Hpre Ha. apply scan_anchors_first.
  - intros x Hx. rewrite Forall_forall in Hpre.
    destruct (anchor_matches pats x) eqn:E; [|reflexivity].
    exfalso. apply (Hpre x Hx). now apply anchor_matches_spec.
  - now apply anchor_matches_spec.
Qed.

Lemma main_find_first_link (pats : list pattern) (w : World)
    (site : str) (t : trace) (soup : Soup) (pre post : list (str * Tag))
    (a : str * Tag) :
  get_parses w t (normalize_url site) soup ->
  find_all_a_href soup = pre ++ a :: post ->
  Forall (fun x => ~ privacy_link pats x) pre ->
  privacy_link pats a ->
  Main.find_privacy_policy_url_with pats w site t
  = (Return (joined w (normalize_url site) a),
     t ++ [GET (normalize_url site)]).
Proof.
  intros (r & G & S & P) E Hpre Ha.
  unfold Main.find_privacy_policy_url_with, try_except, bind, get, lift, ret,
    joined.
  rewrite G, S, P, E, (scan_anchors_first_link w pats _ pre post a Hpre Ha).
  now destruct (urljoin w (normalize_url site) (fst a)).
Qed.

Lemma new_find_first_link (pats : list pattern) (w : World)
    (site : str) (t : trace) (soup : Soup) (pre post : list (str * Tag))
    (a : str * Tag) :
  get_parses w t (normalize_url site) soup ->
  find_all_a_href soup = pre ++ a :: post ->
  Forall (fun x => ~ privacy_link pats x) pre ->
  privacy_link pats a ->
  NewMain.find_policy_url_with pats w site t
  = (Return (joined w (normalize_url site) a),
     t ++ [GET (normalize_url site)]).
Proof.
  intros (r & G & S & P) E Hpre Ha.
  unfold NewMain.find_policy_url_with, try_except, bind, get, lift, ret,
    joined.
  rewrite G, S, P, E, (scan_anchors_first_link w pats _ pre post a Hpre Ha).
  now destruct (urljoin w (normalize_url site) (fst a)).
Qed.

(** C7.  When the home page is fetched and parsed and some anchor is a
    privacy link (one of the file's patterns is found in its lower-cased
    href or in its lower-cased visible text), the resolver settles on the
    first such anchor in document order, whatever anchors follow it: it
    returns that anchor's href joined to the base URL when [urljoin]
    resolves it, and nothing when [urljoin] raises on it.  Either way the
    GET of the home page is the only request: no later anchor is tried
    and no path is probed.  This holds for both files, each with its own
    pattern list. *)
Theorem first_matching_anchor_wins :
  forall w site t soup pre a post,
    get_parses w t (normalize_url site) soup ->
    find_all_a_href soup = pre ++ a :: post ->
    (Forall (fun x => ~ privacy_link Main.privacy_patterns x) pre ->
     privacy_link Main.privacy_patterns a ->
     Main.find_privacy_policy_url w site t
     = (Return (joined w (normalize_url site) a),
        t ++ [GET (normalize_url site)]))
    /\ (Forall (fun x => ~ privacy_link NewMain.patterns x) pre ->
        privacy_link NewMain.patterns a ->
        NewMain.find_policy_url w site t
        = (Return (joined w (normalize_url site) a),
           t ++ [GET (normalize_url site)])).
Proof.
  intros w site t soup pre a post G E. split; intros Hpre Ha.
  - now apply (main_find_first_link _ w site t soup pre post a).
  - now apply (new_find_first_link _ w site t soup pre post a).
Qed.

Lemma example_home_parses :
  get_parses Example.world [] (normalize_url (py "example.com"))
             Example.home.
Proof. exists (Example.ok (py "home")). repeat split. Qed.

Lemma links_page_parses (anchors : list (str * Tag)) :
  get_parses (Links.world anchors) [] (normalize_url (py "example.com"))
             (Links.page anchors).
Proof. exists (mkResponse 200 (py "home") (Return tt)). repeat split. Qed.

Lemma about_is_no_privacy_link :
  ~ privacy_link Main.privacy_patterns Links.about
  /\ ~ privacy_link NewMain.patterns Links.about.
Proof.
  split; intros H; apply anchor_matches_spec in H; vm_compute in H;
    discriminate H.
Qed.

(** Three pages.  The first is the one whose first matching anchor has
    href [/legal/privacy-policy] and whose later anchor has href
    [/privacy].  On the second the first privacy link follows an anchor
    that is none and matches by its href only once that is lower-cased;
    the href is joined as written.  On the third it matches by its text
    only. *)
Lemma first_matching_anchor_wins_witness :
  (Main.find_privacy_policy_url Example.world (py "example.com") []
   = (Return (Some (py "https://example.com/legal/privacy-policy")),
      [GET (py "https://example.com")])
   /\ NewMain.find_policy_url Example.world (py "example.com") []
      = (Return (Some (py "https://example.com/legal/privacy-policy")),
         [GET (py "https://example.com")]))
  /\ (Main.find_privacy_policy_url
        (Links.world [Links.about; Links.by_href; Links.short])
        (py "example.com") []
      = (Return (Some (py "https://example.com/Legal/PRIVACY-Policy")),
         [GET (py "https://example.com")])
      /\ NewMain.find_policy_url
           (Links.world [Links.about; Links.by_href; Links.short])
           (py "example.com") []
         = (Return (Some (py "https://example.com/Legal/PRIVACY-Policy")),
            [GET (py "https://example.com")]))
  /\ (Main.find_privacy_policy_url
        (Links.world [Links.about; Links.by_text; Links.short])
        (py "example.com") []
      = (Return (Some (py "https://example.com/legal/terms")),
         [GET (py "https://example.com")])
      /\ NewMain.find_policy_url
           (Links.world [Links.about; Links.by_text; Links.short])
           (py "example.com") []
         = (Return (Some (py "https://example.com/legal/terms")),
            [GET (py "https://example.com")])).
Proof.
  pose proof about_is_no_privacy_link as [NA NB].
  split; [|split].
  - destruct (first_matching_anchor_wins Example.world (py "example.com") []
                Example.home []
                (py "/legal/privacy-policy", mkTag [py "Legal"])
                [(py "/privacy", mkTag [py "Privacy"])]
                example_home_parses eq_refl) as [A B].
    split.
    + apply A; [constructor|apply anchor_matches_spec; reflexivity].
    + apply B; [constructor|apply anchor_matches_spec; reflexivity].
  - destruct (first_matching_anchor_wins
                (Links.world [Links.about; Links.by_href; Links.short])
                (py "example.com") []
                (Links.page [Links.about; Links.by_href; Links.short])
                [Links.about] Links.by_href [Links.short]
                (links_page_parses _) eq_refl) as [A B].
    split.
    + apply A; [now repeat constructor
               |apply anchor_matches_spec; reflexivity].
    + apply B; [now repeat constructor
               |apply anchor_matches_spec; reflexivity].
  - destruct (first_matching_anchor_wins
                (Links.world [Links.about; Links.by_text; Links.short])
                (py "example.com") []
                (Links.page [Links.about; Links.by_text; Links.short])
                [Links.about] Links.by_text [Links.short]
                (links_page_parses _) eq_refl) as [A B].
    split.
    + apply A; [now repeat constructor
               |apply anchor_matches_spec; reflexivity].
    + apply B; [now repeat constructor
               |apply anchor_matches_spec; reflexivity].
Defined.

(** C7 as stated fails in both files.  The home page is fetched and
    parsed; its first privacy link has an href that [urljoin] refuses,
    and the anchor after it links to [/privacy], which [urljoin]
    resolves.  The resolver returns no URL at all, neither one resolved
    from the first privacy link nor the later one, and probes no path. *)
Lemma unresolvable_link_ends_resolution :
  get_parses (Links.world [Links.about; Links.broken; Links.short]) []
             (normalize_url (py "example.com"))
             (Links.page [Links.about; Links.broken; Links.short])
  /\ find_all_a_href (Links.page [Links.about; Links.broken; Links.short])
     = [Links.about] ++ Links.broken :: [Links.short]
  /\ ~ privacy_link Main.privacy_patterns Links.about
  /\ ~ privacy_link NewMain.patterns Links.about
  /\ privacy_link Main.privacy_patterns Links.broken
  /\ privacy_link NewMain.patterns Links.broken
  /\ urljoin (Links.world [Links.about; Links.broken; Links.short])
             (normalize_url (py "example.com")) (fst Links.short)
     = Return (py "https://example.com/privacy")
  /\ Main.find_privacy_policy_url
       (Links.world [Links.about; Links.broken; Links.short])
       (py "example.com") []
     = (Return None, [GET (py "https://example.com")])
  /\ NewMain.find_policy_url
       (Links.world [Links.about; Links.broken; Links.short])
       (py "example.com") []
     = (Return None, [GET (py "https://example.com")]).
Proof.
  pose proof about_is_no_privacy_link as [NA NB].
  split; [apply links_page_parses|].
  split; [reflexivity|].
  split; [exact NA|]. split; [exact NB|].
  split; [apply anchor_matches_spec; reflexivity|].
  split; [apply anchor_matches_spec; reflexivity|].
  split; [reflexivity|].
  split; reflexivity.
Qed.

(** *** The order of the patterns *)

Lemma existsb_perm {A} (f : A -> bool) (l l' : list A) :
  Permutation l l' -> existsb f l = existsb f l'.
Proof.
  induction 1 as [|x l l' _ IH|x y l|l l' l'' _ IH1 _ IH2]; cbn [existsb].
  - reflexivity.
  - now rewrite IH.
  - destruct (f x), (f y); reflexivity.
  - now rewrite IH1.
Qed.

Lemma scan_anchors_perm (w : World) (pats pats' : list pattern)
    (base : str) (anchors : list (str * Tag)) :
  Permutation pats pats' ->
  scan_anchors w pats base anchors = scan_anchors w pats' base anchors.
Proof.
  intros P. induction anchors as [|a rest IH]; [reflexivity|].
  cbn [scan_anchors]. unfold anchor_matches at 1 2.
  rewrite (existsb_perm _ pats pats' P). now rewrite IH.
Qed.

Lemma main_find_perm (pats pats' : list pattern) (w : World) (site : str)
    (t : trace) :
  Permutation pats pats' ->
  Main.find_privacy_policy_url_with pats w site t
  = Main.find_privacy_policy_url_with pats' w site t.
Proof.
  intros P.
  unfold Main.find_privacy_policy_url_with, try_except, bind, get, lift, ret.
  destruct (session_get w t (normalize_url site)) as [r|e]; [|reflexivity].
  destruct (raise_for_status r); [|reflexivity].
  destruct (BeautifulSoup w (text r)) as [soup|e]; [|reflexivity].
  now rewrite (scan_anchors_perm w pats pats' _ _ P).
Qed.

Lemma new_find_perm (pats pats' : list pattern) (w : World) (site : str)
    (t : trace) :
  Permutation pats pats' ->
  NewMain.find_policy_url_with pats w site t
  = NewMain.find_policy_url_with pats' w site t.
Proof.
  intros P.
  unfold NewMain.find_policy_url_with, try_except, bind, get, lift, ret.
  destruct (session_get w t (normalize_url site)) as [r|e]; [|reflexivity].
  destruct (raise_for_status r); [|reflexivity].
  destruct (BeautifulSoup w (text r)) as [soup|e]; [|reflexivity].
  now rewrite (scan_anchors_perm w pats pats' _ _ P).
Qed.

(** C8, as the code has it.  The order of the pattern list has no effect:
    with the patterns in any other order the resolver makes the same
    requests and returns the same URL on every page.  What decides among
    several matching anchors is their order in the document. *)
Theorem pattern_order_immaterial :
  forall pats pats',
    Permutation pats pats' ->
    forall w site t,
      Main.find_privacy_policy_url_with pats w site t
      = Main.find_privacy_policy_url_with pats' w site t
      /\ NewMain.find_policy_url_with pats w site t
         = NewMain.find_policy_url_with pats' w site t.
Proof.
  intros pats pats' P w site t.
  split; [now apply main_find_perm | now apply new_find_perm].
Qed.

Lemma pattern_order_immaterial_witness :
  Permutation Main.privacy_patterns (rev Main.privacy_patterns)
  /\ Main.find_privacy_policy_url_with (rev Main.privacy_patterns)
       Example.world (py "example.com") []
     = Main.find_privacy_policy_url Example.world (py "example.com") [].
Proof.
  split; [apply Permutation_rev|]. symmetry.
  apply (pattern_order_immaterial Main.privacy_patterns
           (rev Main.privacy_patterns) (Permutation_rev _)
           Example.world (py "example.com") []).
Defined.

(** C8 as stated fails: no page and no reordering of the pattern list of
    either file make the resolver return something else. *)
Lemma no_page_tells_pattern_orders_apart :
  ~ (exists pats' w site t,
        Permutation Main.privacy_patterns pats'
        /\ Main.find_privacy_policy_url_with pats' w site t
           <> Main.find_privacy_policy_url w site t)
  /\ ~ (exists pats' w site t,
           Permutation NewMain.patterns pats'
           /\ NewMain.find_policy_url_with pats' w site t
              <> NewMain.find_policy_url w site t).
Proof.
  split; intros (pats' & w & site & t & P & N); apply N; symmetry.
  - now apply main_find_perm.
  - now apply new_find_perm.
Qed.

(** ** The worker *)

Lemma main_worker_total (w : World) (domain : str) (t : trace) :
  exists r t',
    Main.scrape_single_site w domain t = (Return r, t')
    /\ site r = domain
    /\ status_invariant r.
Proof.
  unfold Main.scrape_single_site, try_except, bind, ret.
  destruct (Main.find_privacy_policy_url w domain t) as [[[[|c u]|]|e] t1];
    try settle_invariant.
  destruct (Main.get_policy_text w (c :: u) t1) as [[[[|d x]|]|e] t2];
    try settle_invariant.
  destruct (100 <? len (strip (d :: x))) eqn:L; settle_invariant.
  intros _. split; [discriminate|].
  apply Nat.ltb_lt in L. lia.
Qed.

Lemma new_worker_total (w : World) (domain : str) (t : trace) :
  exists r t',
    NewMain.scrape_site w domain t = (Return r, t')
    /\ site r = domain
    /\ status_invariant r.
Proof.
  unfold NewMain.scrape_site, NewMain._result, try_except, bind, ret.
  destruct (NewMain.find_policy_url w domain t) as [[[[|c u]|]|e] t1];
    try settle_invariant.
  destruct (NewMain.extract_policy_text w (c :: u) t1)
    as [[[[|d x]|]|e] t2]; try settle_invariant.
  destruct (len (strip (d :: x)) <? 100) eqn:L; settle_invariant.
  intros _. split; [discriminate|].
  apply Nat.ltb_ge in L. exact L.
Qed.




(** ** The main content of a page *)

(** [longest_text] keeps one of the texts, none of the others longer. *)
Lemma longest_text_is_longest (elements : list Tag) :
  forall content,
    let r := longest_text content elements in
    len content <= len r
    /\ Forall (fun el => len (get_text [nl] el) <= len r) elements
    /\ (r = content \/ In r (map (get_text [nl]) elements)).
Proof.
  unfold longest_text.
  induction elements as [|el els IH]; intros content; cbn [fold_left map].
  - repeat split; [lia | constructor | now left].
  - destruct (IH (longer content (get_text [nl] el))) as (A & B & C).
    assert (L : len content <= len (longer content (get_text [nl] el))
                /\ len (get_text [nl] el)
                   <= len (longer content (get_text [nl] el))).
    { unfold longer.
      destruct (len content <? len (get_text [nl] el)) eqn:E.
      - apply Nat.ltb_lt in E. lia.
      - apply Nat.ltb_ge in E. lia. }
    repeat split.
    + lia.
    + constructor; [lia | exact B].
    + destruct C as [C|C]; [|right; now right].
      rewrite C. unfold longer.
      destruct (len content <? len (get_text [nl] el));
        [right; now left | now left].
Qed.

Lemma main_content_first_match (soup : Soup) (pre post : list str)
    (sel : str) :
  Forall (fun s => select soup s = []) pre ->
  select soup sel <> [] ->
  Main.main_content soup [] (pre ++ sel :: post)
  = longest_text [] (select soup sel).
Proof.
  intros Hpre Hsel. induction Hpre as [|s pre Hs _ IH].
  - cbn [app Main.main_content].
    destruct (select soup sel); [contradiction|reflexivity].
  - cbn [app Main.main_content]. now rewrite Hs.
Qed.

Lemma new_content_first_text (soup : Soup) (pre post : list str)
    (sel : str) :
  Forall (fun s => longest_text [] (select soup s) = []) pre ->
  longest_text [] (select soup sel) <> [] ->
  NewMain.main_content soup [] (pre ++ sel :: post)
  = longest_text [] (select soup sel).
Proof.
  intros Hpre Hsel. induction Hpre as [|s pre Hs _ IH].
  - cbn [app NewMain.main_content].
    destruct (longest_text [] (select soup sel)); [contradiction|reflexivity].
  - cbn [app NewMain.main_content]. now rewrite Hs.
Qed.

(** C4, as the code has it.  [main.py] stops at the first selector that
    matches any element, even if all its elements have empty text; the
    candidate is the longest text among that selector's elements, and
    the selectors after it have no part in it.  [new_main.py] stops at the
    first selector whose elements give a non-empty text: a selector that
    matches only elements with empty text is passed over. *)
Theorem first_selector_wins :
  forall soup pre sel post,
    let candidate := longest_text [] (select soup sel) in
    (Forall (fun el => len (get_text [nl] el) <= len candidate)
            (select soup sel)
     /\ (candidate = []
         \/ In candidate (map (get_text [nl]) (select soup sel))))
    /\ (Forall (fun s => select soup s = []) pre ->
        select soup sel <> [] ->
        Main.main_content soup [] (pre ++ sel :: post) = candidate)
    /\ (Forall (fun s => longest_text [] (select soup s) = []) pre ->
        candidate <> [] ->
        NewMain.main_content soup [] (pre ++ sel :: post) = candidate).
Proof.
  intros soup pre sel post candidate. split; [|split].
  - destruct (longest_text_is_longest (select soup sel) []) as (_ & B & C).
    split; assumption.
  - apply main_content_first_match.
  - apply new_content_first_text.
Qed.

Lemma first_selector_wins_witness :
  Main.main_content Example.empty_main [] Main.content_selectors = []
  /\ NewMain.main_content Example.empty_main [] NewMain.selectors
     = py "Policy text".
Proof.
  split.
  - apply (proj1 (proj2 (first_selector_wins Example.empty_main
                           [] (py "main") (tl Main.content_selectors)))).
    + constructor.
    + discriminate.
  - apply (proj2 (proj2 (first_selector_wins Example.empty_main
                           [py "main"; role_main] (py ".content")
                           [py ".policy-content"; py "article"]))).
    + repeat constructor.
    + discriminate.
Defined.

(** C4 as stated fails on [new_main.py]: on a page with an empty [main]
    element the first selector matches, yet the candidate is the text of
    the later [.content] element. *)
Lemma empty_match_is_passed_over :
  select Example.empty_main (py "main") <> []
  /\ longest_text [] (select Example.empty_main (py "main")) = []
  /\ NewMain.main_content Example.empty_main [] NewMain.selectors
     = py "Policy text"
  /\ NewMain.main_content Example.empty_main [] NewMain.selectors
     <> longest_text [] (select Example.empty_main (py "main")).
Proof. repeat split; discriminate. Qed.

(** ** The coordinator *)

Lemma main_collect_results (w : World) (done : list Future) :
  forall results n,
    fst (Main.collect w done results n)
    = results ++ map (Main.settle w) done.
Proof.
  induction done as [|[domain [r|e]] rest IH]; intros results n;
    cbn [Main.collect map].
  - now rewrite app_nil_r.
  - rewrite IH, <- app_assoc. reflexivity.
  - rewrite IH, <- app_assoc. reflexivity.
Qed.

Lemma new_collect_results (w : World) (done : list Future) :
  Forall (fun f => exists r, snd f = Return r) done ->
  forall results,
    NewMain.collect done results
    = Return (results ++ map (Main.settle w) done).
Proof.
  induction 1 as [|[domain o] rest [r E] _ IH]; intros results;
    cbn [NewMain.collect map].
  - now rewrite app_nil_r.
  - cbn [snd] in E. subst o. rewrite IH, <- app_assoc. reflexivity.
Qed.

Lemma main_submit_all_returned (net : nat -> World) (websites : list str) :
  forall i,
    map fst (Main.submit_all net i websites) = websites
    /\ Forall returned (Main.submit_all net i websites).
Proof.
  induction websites as [|domain rest IH]; intros i;
    cbn [Main.submit_all map].
  - split; constructor.
  - destruct (IH (S i)) as [A B]. split; [cbn [fst]; now f_equal|].
    constructor; [|exact B].
    destruct (main_worker_total (net i) domain []) as (r & t' & E & S & _).
    exists r. cbn [fst snd]. rewrite E. now split.
Qed.

Lemma new_submit_all_returned (net : nat -> World) (sites : list str) :
  forall i,
    map fst (NewMain.submit_all net i sites) = sites
    /\ Forall returned (NewMain.submit_all net i sites).
Proof.
  induction sites as [|domain rest IH]; intros i;
    cbn [NewMain.submit_all map].
  - split; constructor.
  - destruct (IH (S i)) as [A B]. split; [cbn [fst]; now f_equal|].
    constructor; [|exact B].
    destruct (new_worker_total (net i) domain []) as (r & t' & E & S & _).
    exists r. cbn [fst snd]. rewrite E. now split.
Qed.

Lemma settle_sites (w : World) (done : list Future) :
  Forall returned done ->
  map site (map (Main.settle w) done) = map fst done.
Proof.
  induction 1 as [|[domain o] rest (r & E & S) _ IH]; [reflexivity|].
  cbn [map]. rewrite IH. f_equal.
  cbn [fst snd] in *. subst o. exact S.
Qed.

Lemma returned_has_result (f : Future) :
  returned f -> exists r, snd f = Return r.
Proof. intros (r & E & _). now exists r. Qed.

(** With at least one site, [main.py] returns one result per site. *)
Lemma main_batch_complete (w : World) (net : nat -> World)
    (as_completed : list Future -> list Future) (websites : list str) :
  websites <> [] ->
  Permutation (as_completed (Main.submit_all net 0 websites))
              (Main.submit_all net 0 websites) ->
  exists results,
    Main.scrape_privacy_policies w net as_completed websites
    = Return results
    /\ length results = length websites
    /\ Permutation (map site results) websites.
Proof.
  intros N P. unfold Main.scrape_privacy_policies.
  pose proof (main_collect_results w
                (as_completed (Main.submit_all net 0 websites)) [] 0) as C.
  destruct (Main.collect w _ [] 0) as [results n]. cbn [fst app] in C.
  destruct (main_submit_all_returned net websites 0) as [A B].
  exists results. unfold true_div.
  destruct (length websites =? 0) eqn:Z.
  - apply Nat.eqb_eq in Z. destruct websites; [contradiction|discriminate].
  - split; [reflexivity|]. subst results. split.
    + rewrite length_map, (Permutation_length P).
      pose proof (length_map fst (Main.submit_all net 0 websites)) as L.
      rewrite A in L. symmetry. exact L.
    + rewrite settle_sites.
      * rewrite <- A at 2. now apply Permutation_map.
      * eapply Permutation_Forall; [symmetry; exact P | exact B].
Qed.

(** [new_main.py] returns one result per site, for any list of sites. *)
Lemma new_batch_complete (net : nat -> World)
    (as_completed : list Future -> list Future) (sites : list str) :
  Permutation (as_completed (NewMain.submit_all net 0 sites))
              (NewMain.submit_all net 0 sites) ->
  exists results,
    NewMain.scrape_all net as_completed sites = Return results
    /\ length results = length sites
    /\ Permutation (map site results) sites.
Proof.
  intros P. unfold NewMain.scrape_all.
  destruct (new_submit_all_returned net sites 0) as [A B].
  assert (D : Forall returned (as_completed (NewMain.submit_all net 0 sites)))
    by (eapply Permutation_Forall; [symmetry; exact P | exact B]).
  rewrite (new_collect_results (net 0)).
  2:{ eapply Forall_impl; [|exact D]. exact returned_has_result. }
  eexists. split; [reflexivity|]. cbn [app]. split.
  - rewrite length_map, (Permutation_length P).
    pose proof (length_map fst (NewMain.submit_all net 0 sites)) as L.
    rewrite A in L. symmetry. exact L.
  - rewrite settle_sites by exact D.
    rewrite <- A at 2. now apply Permutation_map.
Qed.

(** Whatever the tasks did, [main.py] leaves one result per finished
    task, a task that raised included. *)
Lemma main_collect_keeps_every_task (w : World) (done : list Future) :
  length (fst (Main.collect w done [] 0)) = length done.
Proof. rewrite main_collect_results. cbn [app]. apply length_map. Qed.

Example main_batch_of_two :
  exists results,
    Main.scrape_privacy_policies Example.world (fun _ => Example.world)
      (@rev Future) [py "example.com"; py "unreachable.test"]
    = Return results
    /\ map site results = [py "unreachable.test"; py "example.com"]
    /\ map status results
       = [py "policy_not_found"; py "text_extraction_failed"].
Proof. eexists. split; [vm_compute; reflexivity|]. split; reflexivity. Qed.

Example new_batch_of_none :
  NewMain.scrape_all (fun _ => Example.world) (fun fs => fs) [] = Return [].
Proof. reflexivity. Qed.

(** C2 at the empty list.  With no site to scrape, [main.py] does not
    return the empty list of results: the success rate of its last log
    line divides by the number of sites, and the run ends in
    [ZeroDivisionError]. *)
Theorem main_batch_of_nothing_raises :
  forall w net as_completed,
    Main.scrape_privacy_policies w net as_completed []
    = Raise (py "division by zero").
Proof.
  intros w net as_completed. unfold Main.scrape_privacy_policies.
  now destruct (Main.collect w _ [] 0).
Qed.

(** * Further properties of the code *)

(** ** [normalize_url] *)

(** X1.  The result of [normalize_url] always starts with ["http://"] or
    ["https://"], and the inputs it returns unchanged are exactly those
    that already start with one of the two. *)
Theorem normalize_url_fixed_points :
  forall u,
    startswith_any (normalize_url u) schemes = true
    /\ (normalize_url u = u <-> startswith_any u schemes = true).
Proof.
  intros u. split; [apply normalize_url_has_scheme|]. split.
  - intros E. rewrite <- E. apply normalize_url_has_scheme.
  - intros H. rewrite normalize_url_unfold. now rewrite H.
Qed.

(** ** The guessed paths *)

Lemma scan_anchors_none (w : World) (pats : list pattern) (base : str)
    (anchors : list (str * Tag)) :
  Forall (fun a => anchor_matches pats a = false) anchors ->
  scan_anchors w pats base anchors = Return None.
Proof.
  induction 1 as [|a rest Ha _ IH]; [reflexivity|].
  cbn [scan_anchors]. now rewrite Ha.
Qed.

Lemma probe_miss_step (w : World) (base path url : str) (rest : list str)
    (t : trace) :
  urljoin w base path = Return url ->
  head_misses w url ->
  probe_paths w base (path :: rest) t
  = probe_paths w base rest (t ++ [HEAD url]).
Proof.
  intros U M. cbn [probe_paths]. unfold bind, lift, try_except, head, ret.
  rewrite U. specialize (M t).
  destruct (session_head w t url) as [r|e]; [|reflexivity].
  destruct (status_code r =? 200) eqn:E; [|reflexivity].
  apply Nat.eqb_eq in E. contradiction.
Qed.

Lemma probe_paths_hit (w : World) (base : str) (pre post : list str)
    (p u : str) (us : list str) :
  Forall2 (fun path url => urljoin w base path = Return url) pre us ->
  Forall (head_misses w) us ->
  urljoin w base p = Return u ->
  head_hits w u ->
  forall t,
    probe_paths w base (pre ++ p :: post) t
    = (Return (Some u), t ++ map HEAD (us ++ [u])).
Proof.
  intros J. induction J as [|path url pre us U _ IH]; intros M Up H t.
  - cbn [app probe_paths map]. unfold bind, lift, try_except, head, ret.
    rewrite Up. destruct (H t) as (r & E & C). rewrite E, C. reflexivity.
  - inversion M as [|? ? M1 M2]; subst.
    cbn [app]. rewrite (probe_miss_step w base path url _ t U M1).
    rewrite (IH M2 Up H). cbn [app map]. now rewrite <- app_assoc.
Qed.

Lemma probe_paths_all_miss (w : World) (base : str) (paths us : list str) :
  Forall2 (fun path url => urljoin w base path = Return url) paths us ->
  Forall (head_misses w) us ->
  forall t,
    probe_paths w base paths t = (Return None, t ++ map HEAD us).
Proof.
  intros J. induction J as [|path url paths us U _ IH]; intros M t.
  - cbn. now rewrite app_nil_r.
  - inversion M as [|? ? M1 M2]; subst.
    rewrite (probe_miss_step w base path url _ t U M1).
    rewrite (IH M2). cbn [map]. now rewrite <- app_assoc.
Qed.

Lemma main_find_falls_back (w : World) (domain : str) (t : trace)
    (soup : Soup) :
  get_parses w t (normalize_url domain) soup ->
  Forall (fun a => anchor_matches Main.privacy_patterns a = false)
         (find_all_a_href soup) ->
  Main.find_privacy_policy_url w domain t
  = match probe_paths w (normalize_url domain) Main.common_paths
            (t ++ [GET (normalize_url domain)]) with
    | (Return o, t') => (Return o, t')
    | (Raise _, t') => (Return None, t')
    end.
Proof.
  intros (r & G & S & P) N.
  unfold Main.find_privacy_policy_url, Main.find_privacy_policy_url_with,
    try_except, bind, get, lift, ret.
  rewrite G, S, P, (scan_anchors_none _ _ _ _ N). reflexivity.
Qed.

Lemma new_find_falls_back (w : World) (domain : str) (t : trace)
    (soup : Soup) :
  get_parses w t (normalize_url domain) soup ->
  Forall (fun a => anchor_matches NewMain.patterns a = false)
         (find_all_a_href soup) ->
  NewMain.find_policy_url w domain t
  = match probe_paths w (normalize_url domain) NewMain.fallback_paths
            (t ++ [GET (normalize_url domain)]) with
    | (Return o, t') => (Return o, t')
    | (Raise _, t') => (Return None, t')
    end.
Proof.
  intros (r & G & S & P) N.
  unfold NewMain.find_policy_url, NewMain.find_policy_url_with,
    try_except, bind, get, lift, ret.
  rewrite G, S, P, (scan_anchors_none _ _ _ _ N). reflexivity.
Qed.

(** X2.  When the home page is fetched and parsed and none of its anchors
    matches, the guessed paths are probed in the order of the list: the
    first one whose HEAD request answers 200 is returned, joined to the
    base URL, after one HEAD request for each path before it (all of which
    raised or answered another status) and one for itself; the paths after
    it are not probed. *)
Theorem first_answering_path_wins :
  forall w domain t soup pre p post us u,
    let base := normalize_url domain in
    get_parses w t base soup ->
    Forall2 (fun path url => urljoin w base path = Return url) pre us ->
    Forall (head_misses w) us ->
    urljoin w base p = Return u ->
    head_hits w u ->
    (Forall (fun a => anchor_matches Main.privacy_patterns a = false)
            (find_all_a_href soup) ->
     Main.common_paths = pre ++ p :: post ->
     Main.find_privacy_policy_url w domain t
     = (Return (Some u), t ++ GET base :: map HEAD (us ++ [u])))
    /\ (Forall (fun a => anchor_matches NewMain.patterns a = false)
               (find_all_a_href soup) ->
        NewMain.fallback_paths = pre ++ p :: post ->
        NewMain.find_policy_url w domain t
        = (Return (Some u), t ++ GET base :: map HEAD (us ++ [u]))).
Proof.
  intros w domain t soup pre p post us u base G J M U H.
  split; intros N E.
  - rewrite (main_find_falls_back w domain t soup G N), E.
    rewrite (probe_paths_hit w base pre post p u us J M U H).
    now rewrite <- app_assoc.
  - rewrite (new_find_falls_back w domain t soup G N), E.
    rewrite (probe_paths_hit w base pre post p u us J M U H).
    now rewrite <- app_assoc.
Qed.

Lemma fallback_home_parses :
  get_parses Fallback.world [] (normalize_url (py "example.org"))
             Fallback.bare.
Proof. exists (mkResponse 200 (py "bare") (Return tt)). repeat split. Qed.

Lemma fallback_privacy_hits :
  head_hits Fallback.world (py "https://example.org/privacy").
Proof.
  intros t. exists (mkResponse 200 [] (Return tt)). split; reflexivity.
Qed.

Lemma fallback_privacy_policy_misses :
  head_misses Fallback.world (py "https://example.org/privacy-policy").
Proof. intros t. cbn. discriminate. Qed.

Lemma first_answering_path_wins_witness :
  Main.find_privacy_policy_url Fallback.world (py "example.org") []
  = (Return (Some (py "https://example.org/privacy")),
     [ GET (py "https://example.org");
       HEAD (py "https://example.org/privacy-policy");
       HEAD (py "https://example.org/privacy") ])
  /\ NewMain.find_policy_url Fallback.world (py "example.org") []
     = (Return (Some (py "https://example.org/privacy")),
        [ GET (py "https://example.org");
          HEAD (py "https://example.org/privacy") ]).
Proof.
  split.
  - apply (proj1 (first_answering_path_wins Fallback.world
                    (py "example.org") [] Fallback.bare
                    [py "/privacy-policy"] (py "/privacy")
                    (skipn 2 Main.common_paths)
                    [py "https://example.org/privacy-policy"]
                    (py "https://example.org/privacy")
                    fallback_home_parses
                    (Forall2_cons _ _ eq_refl (Forall2_nil _))
                    (Forall_cons _ fallback_privacy_policy_misses
                                 (Forall_nil _))
                    eq_refl fallback_privacy_hits)).
    + repeat constructor.
    + reflexivity.
  - apply (proj2 (first_answering_path_wins Fallback.world
                    (py "example.org") [] Fallback.bare
                    [] (py "/privacy")
                    (skipn 1 NewMain.fallback_paths)
                    [] (py "https://example.org/privacy")
                    fallback_home_parses (Forall2_nil _) (Forall_nil _)
                    eq_refl fallback_privacy_hits)).
    + repeat constructor.
    + reflexivity.
Defined.

(** X3.  When the home page is fetched and parsed, none of its anchors
    matches and no guessed path answers 200 to its HEAD request, every
    path of the list has been probed once, in order (eleven in [main.py],
    five in [new_main.py]), nothing is found, and the worker reports
    ["policy_not_found"] ([main.py]) or ["not_found"] ([new_main.py])
    without fetching any further page. *)
Theorem nothing_linked_nothing_guessed :
  forall w domain t soup us,
    let base := normalize_url domain in
    get_parses w t base soup ->
    Forall (head_misses w) us ->
    (Forall (fun a => anchor_matches Main.privacy_patterns a = false)
            (find_all_a_href soup) ->
     Forall2 (fun path url => urljoin w base path = Return url)
             Main.common_paths us ->
     Main.find_privacy_policy_url w domain t
     = (Return None, t ++ GET base :: map HEAD us)
     /\ Main.scrape_single_site w domain t
        = (Return (mkResult (company_of w domain) domain [] []
                            (py "policy_not_found")),
           t ++ GET base :: map HEAD us))
    /\ (Forall (fun a => anchor_matches NewMain.patterns a = false)
               (find_all_a_href soup) ->
        Forall2 (fun path url => urljoin w base path = Return url)
                NewMain.fallback_paths us ->
        NewMain.find_policy_url w domain t
        = (Return None, t ++ GET base :: map HEAD us)
        /\ NewMain.scrape_site w domain t
           = (Return (mkResult (company_of w domain) domain [] []
                               (py "not_found")),
              t ++ GET base :: map HEAD us)).
Proof.
  intros w domain t soup us base G M. split; intros N J.
  - assert (F : Main.find_privacy_policy_url w domain t
                = (Return None, t ++ GET base :: map HEAD us)).
    { rewrite (main_find_falls_back w domain t soup G N).
      rewrite (probe_paths_all_miss w base _ us J M).
      now rewrite <- app_assoc. }
    split; [exact F|].
    unfold Main.scrape_single_site, try_except, bind. now rewrite F.
  - assert (F : NewMain.find_policy_url w domain t
                = (Return None, t ++ GET base :: map HEAD us)).
    { rewrite (new_find_falls_back w domain t soup G N).
      rewrite (probe_paths_all_miss w base _ us J M).
      now rewrite <- app_assoc. }
    split; [exact F|].
    unfold NewMain.scrape_site, try_except, bind. now rewrite F.
Qed.

Lemma silent_home_parses :
  get_parses Fallback.silent [] (normalize_url (py "example.org"))
             Fallback.bare.
Proof. exists (mkResponse 200 (py "bare") (Return tt)). repeat split. Qed.

Lemma silent_misses (url : str) : head_misses Fallback.silent url.
Proof. intros t. exact I. Qed.

Lemma nothing_linked_nothing_guessed_witness :
  exists after,
    Main.scrape_single_site Fallback.silent (py "example.org") []
    = (Return (mkResult (py "example.org") (py "example.org") [] []
                        (py "policy_not_found")), after)
    /\ length after = 12.
Proof.
  eexists. split.
  - apply (proj1 (nothing_linked_nothing_guessed Fallback.silent
                    (py "example.org") [] Fallback.bare
                    (map (app Fallback.base) Main.common_paths)
                    silent_home_parses
                    (proj2 (Forall_forall _ _)
                           (fun url _ => silent_misses url)))).
    + repeat constructor.
    + repeat constructor.
  - reflexivity.
Defined.

(** ** Where a returned URL comes from *)

Lemma scan_anchors_found (w : World) (pats : list pattern) (base u : str)
    (anchors : list (str * Tag)) :
  scan_anchors w pats base anchors = Return (Some u) ->
  exists a, In a anchors
            /\ anchor_matches pats a = true
            /\ urljoin w base (fst a) = Return u.
Proof.
  induction anchors as [|a rest IH]; cbn [scan_anchors]; [discriminate|].
  destruct (anchor_matches pats a) eqn:Ha.
  - destruct (urljoin w base (fst a)) as [x|e] eqn:U; [|discriminate].
    intros [= <-]. exists a. repeat split; try assumption. now left.
  - intros H. destruct (IH H) as (b & Hb & R). exists b.
    split; [now right|exact R].
Qed.

Lemma probe_paths_found (w : World) (base u : str) (paths : list str) :
  forall t t',
    probe_paths w base paths t = (Return (Some u), t') ->
    exists path th r,
      In path paths
      /\ urljoin w base path = Return u
      /\ session_head w th u = Return r
      /\ status_code r = 200.
Proof.
  induction paths as [|path rest IH]; intros t t'.
  - cbn. discriminate.
  - cbn [probe_paths]. unfold bind, lift, try_except, head, ret.
    destruct (urljoin w base path) as [url|e] eqn:U; [|discriminate].
    destruct (session_head w t url) as [r|e] eqn:Hd.
    + destruct (status_code r =? 200) eqn:E.
      * intros [= <- _]. apply Nat.eqb_eq in E.
        exists path, t, r. repeat split; try assumption. now left.
      * intros H. apply IH in H as (q & th & r' & Hq & R).
        exists q, th, r'. split; [now right|exact R].
    + intros H. apply IH in H as (q & th & r' & Hq & R).
      exists q, th, r'. split; [now right|exact R].
Qed.

Lemma main_find_sound (pats : list pattern) (w : World) (domain : str)
    (t : trace) :
  exists o t',
    Main.find_privacy_policy_url_with pats w domain t = (Return o, t')
    /\ forall u, o = Some u ->
                 linked_or_probed w pats Main.common_paths t
                                  (normalize_url domain) u.
Proof.
  unfold Main.find_privacy_policy_url_with, try_except, bind, get, lift, ret.
  destruct (session_get w t (normalize_url domain)) as [r|e] eqn:G;
    [|eexists; eexists; split; [reflexivity|discriminate]].
  destruct (raise_for_status r) as [[]|e] eqn:S;
    [|eexists; eexists; split; [reflexivity|discriminate]].
  destruct (BeautifulSoup w (text r)) as [soup|e] eqn:P;
    [|eexists; eexists; split; [reflexivity|discriminate]].
  assert (GP : get_parses w t (normalize_url domain) soup)
    by (exists r; repeat split; assumption).
  destruct (scan_anchors w pats (normalize_url domain)
              (find_all_a_href soup)) as [[u|]|e] eqn:A.
  - eexists; eexists; split; [reflexivity|]. intros ? [= <-].
    exists soup. split; [exact GP|]. left.
    now apply scan_anchors_found in A.
  - destruct (probe_paths w (normalize_url domain) Main.common_paths
                (t ++ [GET (normalize_url domain)])) as [[o|e] t1] eqn:Pr;
      (eexists; eexists; split; [reflexivity|]); [|discriminate].
    intros u ->. exists soup. split; [exact GP|]. right.
    now apply probe_paths_found in Pr.
  - eexists; eexists; split; [reflexivity|discriminate].
Qed.

Lemma new_find_sound (pats : list pattern) (w : World) (domain : str)
    (t : trace) :
  exists o t',
    NewMain.find_policy_url_with pats w domain t = (Return o, t')
    /\ forall u, o = Some u ->
                 linked_or_probed w pats NewMain.fallback_paths t
                                  (normalize_url domain) u.
Proof.
  unfold NewMain.find_policy_url_with, try_except, bind, get, lift, ret.
  destruct (session_get w t (normalize_url domain)) as [r|e] eqn:G;
    [|eexists; eexists; split; [reflexivity|discriminate]].
  destruct (raise_for_status r) as [[]|e] eqn:S;
    [|eexists; eexists; split; [reflexivity|discriminate]].
  destruct (BeautifulSoup w (text r)) as [soup|e] eqn:P;
    [|eexists; eexists; split; [reflexivity|discriminate]].
  assert (GP : get_parses w t (normalize_url domain) soup)
    by (exists r; repeat split; assumption).
  destruct (scan_anchors w pats (normalize_url domain)
              (find_all_a_href soup)) as [[u|]|e] eqn:A.
  - eexists; eexists; split; [reflexivity|]. intros ? [= <-].
    exists soup. split; [exact GP|]. left.
    now apply scan_anchors_found in A.
  - destruct (probe_paths w (normalize_url domain) NewMain.fallback_paths
                (t ++ [GET (normalize_url domain)])) as [[o|e] t1] eqn:Pr;
      (eexists; eexists; split; [reflexivity|]); [|discriminate].
    intros u ->. exists soup. split; [exact GP|]. right.
    now apply probe_paths_found in Pr.
  - eexists; eexists; split; [reflexivity|discriminate].
Qed.

(** X4.  The resolver never raises, whatever the network, the parser and
    [urljoin] do, and it never makes a URL up: a URL it returns is the
    href of a matching anchor of the fetched home page joined to the base
    URL, or one of the guessed paths joined to the base URL whose HEAD
    request answered 200. *)
Theorem resolver_returns_linked_or_probed :
  forall w domain t,
    (exists o t',
        Main.find_privacy_policy_url w domain t = (Return o, t')
        /\ forall u, o = Some u ->
                     linked_or_probed w Main.privacy_patterns
                       Main.common_paths t (normalize_url domain) u)
    /\ (exists o t',
           NewMain.find_policy_url w domain t = (Return o, t')
           /\ forall u, o = Some u ->
                        linked_or_probed w NewMain.patterns
                          NewMain.fallback_paths t (normalize_url domain) u).
Proof.
  intros w domain t. split.
  - apply main_find_sound.
  - apply new_find_sound.
Qed.

(** ** What the patterns match *)

Lemma backtrack_complete (try : nat -> option nat) (lo d k : nat) :
  lo <= k <= lo + d -> try k <> None -> backtrack try lo d <> None.
Proof.
  revert k. induction d as [|d IH]; intros k Hk Ht; cbn [backtrack].
  - replace (lo + 0) with k by lia. now destruct (try k).
  - destruct (try (lo + S d)) eqn:E; [discriminate|].
    apply (IH k); [|exact Ht].
    assert (k <> lo + S d) by (intros ->; contradiction). lia.
Qed.

Lemma match_here_cons (a : atom) (q : quant) (p : pattern) (s : str) :
  matches_here ((a, q) :: p) s
  <-> exists k, qmin q <= k <= most a q s
                /\ matches_here p (skipn k s).
Proof.
  unfold matches_here. cbn [match_here]. fold (most a q s). split.
  - intros [m H]. destruct (most a q s <? qmin q) eqn:E; [discriminate|].
    apply Nat.ltb_ge in E.
    apply backtrack_found in H as (k & Hk & Hr).
    exists k. split; [lia|].
    destruct (match_here p (skipn k s)) as [m'|]; [now exists m'|discriminate].
  - intros (k & Hk & m' & Hm).
    destruct (most a q s <? qmin q) eqn:E.
    + apply Nat.ltb_lt in E. lia.
    + destruct (backtrack
                  (fun k => option_map (Nat.add k) (match_here p (skipn k s)))
                  (qmin q) (most a q s - qmin q)) as [m|] eqn:B;
        [now exists m|].
      exfalso. revert B. apply (backtrack_complete _ _ _ k); [lia|].
      now rewrite Hm.
Qed.

(** A pattern matches where a longer pattern that starts with it does. *)
Lemma match_here_prefix (p q : pattern) :
  forall s, matches_here (p ++ q) s -> matches_here p s.
Proof.
  induction p as [|[a qu] p IH]; intros s H.
  - now exists 0.
  - cbn [app] in H. apply match_here_cons in H as (k & Hk & H).
    apply match_here_cons. exists k. split; [exact Hk|]. now apply IH.
Qed.

(** The rest of a pattern matches somewhere after the place where the
    whole pattern does. *)
Lemma match_here_suffix (p q : pattern) :
  forall s, matches_here (p ++ q) s ->
            exists k, matches_here q (skipn k s).
Proof.
  induction p as [|[a qu] p IH]; intros s H.
  - now exists 0.
  - cbn [app] in H. apply match_here_cons in H as (k & _ & H).
    apply IH in H as (k' & H). exists (k' + k).
    now rewrite <- skipn_skipn.
Qed.

Lemma search_iff (p : pattern) (s : str) :
  search p s = true <-> exists k, matches_here p (skipn k s).
Proof.
  unfold matches_here. split.
  - induction s as [|c s IH]; cbn [search].
    + destruct (match_here p []) as [m|] eqn:E; [|discriminate].
      intros _. exists 0, m. exact E.
    + destruct (match_here p (c :: s)) as [m|] eqn:E.
      * intros _. exists 0, m. exact E.
      * intros H. destruct (IH H) as (k & m & Hk). now exists (S k), m.
  - intros (k & m & H). revert k H.
    induction s as [|c s IH]; intros k H; cbn [search].
    + rewrite skipn_nil in H. now rewrite H.
    + destruct (match_here p (c :: s)) as [m'|] eqn:E; [reflexivity|].
      destruct k as [|k]; [cbn [skipn] in H; congruence|].
      now apply (IH k).
Qed.

(** What a longer pattern finds, a part of it finds too. *)
Lemma search_part (pre mid post : pattern) (s : str) :
  search (pre ++ mid ++ post) s = true -> search mid s = true.
Proof.
  intros H. apply search_iff in H as (k & H).
  apply match_here_suffix in H as (k' & H).
  apply match_here_prefix in H.
  apply search_iff. exists (k' + k). now rewrite <- skipn_skipn.
Qed.

Lemma startswith_iff (s word : str) :
  startswith s word = true <-> exists rest, s = word ++ rest.
Proof.
  revert s. induction word as [|c word IH]; intros s; cbn [startswith].
  - split; [intros _; now exists s | reflexivity].
  - destruct s as [|x s].
    + split; [discriminate | intros [rest E]; discriminate].
    + rewrite andb_true_iff, Ascii.eqb_eq, IH. split.
      * intros [-> [rest ->]]. now exists rest.
      * intros [rest [= -> ->]]. split; [reflexivity | now exists rest].
Qed.

Lemma match_here_literal (word : str) (p : pattern) :
  forall s,
    match_here (literal word ++ p) s
    = if startswith s word
      then option_map (Nat.add (length word))
                      (match_here p (skipn (length word) s))
      else None.
Proof.
  induction word as [|c word IH]; intros s.
  - cbn [literal map app startswith length skipn Nat.add].
    now destruct (match_here p s).
  - cbn [literal map app match_here once qmax qmin atom_matches].
    fold (literal word). destruct s as [|x s]; [reflexivity|].
    cbn [span startswith]. cbn [atom_matches].
    destruct (Ascii.eqb x c); [|reflexivity].
    cbn [Nat.min Nat.ltb Nat.leb Nat.sub backtrack Nat.add skipn andb].
    rewrite IH. destruct (startswith s word); [|reflexivity].
    cbn [length skipn].
    now destruct (match_here p (skipn (length word) s)).
Qed.

Lemma search_literal (word s : str) :
  search (literal word) s = true <-> contains word s.
Proof.
  rewrite search_iff. unfold matches_here, contains. split.
  - intros (k & m & H).
    rewrite <- (app_nil_r (literal word)), match_here_literal in H.
    destruct (startswith (skipn k s) word) eqn:E; [|discriminate].
    apply startswith_iff in E as [rest E].
    exists (firstn k s), rest.
    now rewrite <- E, firstn_skipn.
  - intros (before & after & ->). exists (length before).
    rewrite skipn_app, Nat.sub_diag, skipn_all. cbn [app skipn].
    rewrite <- (app_nil_r (literal word)), match_here_literal.
    rewrite startswith_app. cbn [match_here option_map]. eauto.
Qed.

Lemma startswith_app_split (s a b : str) :
  startswith s (a ++ b)
  = startswith s a && startswith (skipn (length a) s) b.
Proof.
  revert s. induction a as [|c a IH]; intros s; [reflexivity|].
  cbn [app startswith length]. destruct s as [|x s]; [reflexivity|].
  cbn [skipn]. now rewrite IH, andb_assoc.
Qed.

Lemma contains_iff_startswith (word s : str) :
  contains word s <-> exists k, startswith (skipn k s) word = true.
Proof.
  unfold contains. split.
  - intros (before & after & ->). exists (length before).
    rewrite skipn_app, Nat.sub_diag, skipn_all. cbn [app skipn].
    apply startswith_app.
  - intros (k & E). apply startswith_iff in E as [rest E].
    exists (firstn k s), rest. now rewrite <- E, firstn_skipn.
Qed.

Lemma matches_literal (word s : str) :
  matches_here (literal word) s <-> startswith s word = true.
Proof.
  unfold matches_here.
  rewrite <- (app_nil_r (literal word)), match_here_literal.
  destruct (startswith s word); cbn [match_here option_map].
  - split; [reflexivity | eauto].
  - split; [intros [m H]; discriminate | discriminate].
Qed.

(** [data[_-]?protection] at the head of a string. *)
Lemma matches_data_protection (s : str) :
  matches_here DATA_PROTECTION s
  <-> startswith s (py "dataprotection") = true
      \/ startswith s (py "data_protection") = true
      \/ startswith s (py "data-protection") = true.
Proof.
  change (py "dataprotection") with (py "data" ++ py "protection").
  change (py "data_protection") with (py "data" ++ py "_protection").
  change (py "data-protection") with (py "data" ++ py "-protection").
  rewrite !startswith_app_split.
  unfold matches_here, DATA_PROTECTION. rewrite match_here_literal.
  destruct (startswith s (py "data")); cbn [andb].
  2:{ split; [intros [m H]; discriminate|].
      intros [H|[H|H]]; discriminate. }
  set (r := skipn (length (py "data")) s).
  transitivity (matches_here
                  ((OneOf ["_"%char; "-"%char], opt)
                     :: literal (py "protection")) r).
  { unfold matches_here.
    destruct (match_here _ r) as [m|]; cbn [option_map].
    - split; eauto.
    - split; intros [m H]; discriminate. }
  rewrite match_here_cons. cbn [qmin opt]. split.
  - intros (k & Hk & H). apply matches_literal in H.
    destruct k as [|k]; [now left|]. right.
    unfold most in Hk. cbn [qmax opt] in Hk.
    replace k with 0 in H by lia.
    destruct r as [|x r']; [cbn in Hk; lia|].
    cbn [span atom_matches existsb] in Hk. cbn [skipn] in H.
    change (py "_protection") with ("_"%char :: py "protection").
    change (py "-protection") with ("-"%char :: py "protection").
    cbn [startswith]. rewrite H, !andb_true_r.
    destruct (Ascii.eqb x "_"); [now left|].
    destruct (Ascii.eqb x "-"); [now right|].
    cbn in Hk. lia.
  - intros [H|H].
    + exists 0. split; [lia|]. now apply matches_literal.
    + exists 1. unfold most. cbn [qmax opt].
      change (py "_protection") with ("_"%char :: py "protection") in H.
      change (py "-protection") with ("-"%char :: py "protection") in H.
      destruct r as [|x r']; [destruct H; discriminate|].
      cbn [startswith] in H. cbn [span atom_matches existsb skipn].
      assert (P : startswith r' (py "protection") = true
                  /\ (Ascii.eqb x "_" || (Ascii.eqb x "-" || false)) = true).
      { destruct H as [H|H]; apply andb_true_iff in H as [H1 H2];
          rewrite H1, H2; split; try reflexivity.
        now rewrite orb_true_r. }
      destruct P as [P1 P2]. rewrite P2. split; [cbn; lia|].
      now apply matches_literal.
Qed.

Lemma search_data_protection (s : str) :
  search DATA_PROTECTION s = true
  <-> contains (py "dataprotection") s
      \/ contains (py "data_protection") s
      \/ contains (py "data-protection") s.
Proof.
  rewrite search_iff, !contains_iff_startswith. split.
  - intros (k & H). apply matches_data_protection in H.
    destruct H as [H|[H|H]]; eauto.
  - intros [[k H]|[[k H]|[k H]]]; exists k;
      apply matches_data_protection; auto.
Qed.

Lemma main_patterns_shape : Forall privacy_or_data Main.privacy_patterns.
Proof. repeat (constructor; [privacy_or_data|]). constructor. Qed.

Lemma new_patterns_shape : Forall privacy_or_data NewMain.patterns.
Proof. repeat (constructor; [privacy_or_data|]). constructor. Qed.

Lemma found_says_privacy (pats : list pattern) (s : str) :
  Forall privacy_or_data pats ->
  existsb (fun pat => search pat s) pats = true -> says_privacy s.
Proof.
  intros F H. apply existsb_exists in H as (pat & I & H).
  rewrite Forall_forall in F. destruct (F pat I) as [->|(pre & post & ->)].
  - right. now apply search_data_protection.
  - left. apply search_part in H. now apply search_literal.
Qed.

Lemma says_privacy_found (pats : list pattern) (s : str) :
  In PRIVACY pats -> In DATA_PROTECTION pats ->
  says_privacy s -> existsb (fun pat => search pat s) pats = true.
Proof.
  intros P D [H|H]; apply existsb_exists.
  - exists PRIVACY. split; [exact P|]. now apply search_literal.
  - exists DATA_PROTECTION. split; [exact D|].
    now apply search_data_protection.
Qed.

Lemma anchor_matches_iff (pats : list pattern) (a : str * Tag) :
  Forall privacy_or_data pats ->
  In PRIVACY pats -> In DATA_PROTECTION pats ->
  anchor_matches pats a = true
  <-> says_privacy (lower (fst a))
      \/ says_privacy (lower (get_text [] (snd a))).
Proof.
  intros F P D. unfold anchor_matches. cbv zeta. split.
  - intros H. apply existsb_exists in H as (pat & I & H).
    apply orb_true_iff in H as [H|H]; [left|right];
      apply (found_says_privacy pats); try assumption;
      apply existsb_exists; now exists pat.
  - intros [H|H]; apply (says_privacy_found pats) in H; try assumption;
      apply existsb_exists in H as (pat & I & H);
      apply existsb_exists; exists pat; (split; [exact I|]);
      rewrite H; [reflexivity | apply orb_true_r].
Qed.

(** X5.  An anchor matches exactly when its lower-cased href or its
    lower-cased text holds [privacy], [dataprotection], [data_protection]
    or [data-protection] somewhere.  This is so for the eight patterns of
    [main.py] and for the three of [new_main.py] alike, so the two files
    accept the same anchors: every other pattern holds the word
    [privacy] and finds nothing that the pattern [privacy] does not. *)
Theorem anchors_that_match :
  forall a,
    (anchor_matches Main.privacy_patterns a = true
     <-> says_privacy (lower (fst a))
         \/ says_privacy (lower (get_text [] (snd a))))
    /\ anchor_matches NewMain.patterns a
       = anchor_matches Main.privacy_patterns a.
Proof.
  intros a.
  assert (M : anchor_matches Main.privacy_patterns a = true
              <-> says_privacy (lower (fst a))
                  \/ says_privacy (lower (get_text [] (snd a)))).
  { apply anchor_matches_iff; [exact main_patterns_shape| |];
      cbn; tauto. }
  assert (N : anchor_matches NewMain.patterns a = true
              <-> says_privacy (lower (fst a))
                  \/ says_privacy (lower (get_text [] (snd a)))).
  { apply anchor_matches_iff; [exact new_patterns_shape| |];
      cbn; tauto. }
  split; [exact M|].
  apply Bool.eq_iff_eq_true. now rewrite M, N.
Qed.

(** ** The extractor *)

Lemma main_truncate_bound (s : str) :
  len (Main.truncate s) <= Main.MAX_CHARS + len Main.marker.
Proof.
  destruct (Nat.lt_ge_cases Main.MAX_CHARS (len s)) as [H|H].
  - rewrite (main_truncate_long s H). unfold len.
    rewrite length_app, length_firstn. lia.
  - rewrite (main_truncate_short s H). lia.
Qed.

Lemma new_truncate_bound (s : str) :
  len (NewMain.truncate s) <= NewMain.MAX_CHARS + len NewMain.marker.
Proof.
  destruct (Nat.lt_ge_cases NewMain.MAX_CHARS (len s)) as [H|H].
  - rewrite (new_truncate_long s H). unfold len.
    rewrite length_app, length_firstn. lia.
  - rewrite (new_truncate_short s H). lia.
Qed.

Lemma main_extract_outcome (w : World) (url : str) (t : trace) :
  exists o,
    Main.get_policy_text w url t = (Return o, t ++ [GET url])
    /\ extracted w t url Main.page_text (50 * 1000 + 23) o.
Proof.
  unfold Main.get_policy_text, try_except, bind, get, lift, ret.
  destruct (session_get w t url) as [r|e] eqn:G.
  2:{ exists None. split; [reflexivity|]. left. left. now exists e. }
  destruct (raise_for_status r) as [[]|e] eqn:S.
  2:{ exists None. split; [reflexivity|]. left. right. now exists r, e. }
  destruct (BeautifulSoup w (text r)) as [soup|e] eqn:P.
  2:{ exists None. split; [reflexivity|]. right. now exists r, e. }
  exists (Some (Main.page_text w soup)). split; [reflexivity|].
  exists soup. split; [now exists r|]. split; [reflexivity|].
  apply main_truncate_bound.
Qed.

Lemma new_extract_outcome (w : World) (url : str) (t : trace) :
  exists o,
    NewMain.extract_policy_text w url t = (Return o, t ++ [GET url])
    /\ extracted w t url NewMain.page_text (50 * 1000 + 15) o.
Proof.
  unfold NewMain.extract_policy_text, try_except, bind, get, lift, ret.
  destruct (session_get w t url) as [r|e] eqn:G.
  2:{ exists None. split; [reflexivity|]. left. left. now exists e. }
  destruct (raise_for_status r) as [[]|e] eqn:S.
  2:{ exists None. split; [reflexivity|]. left. right. now exists r, e. }
  destruct (BeautifulSoup w (text r)) as [soup|e] eqn:P.
  2:{ exists None. split; [reflexivity|]. right. now exists r, e. }
  exists (Some (NewMain.page_text w soup)). split; [reflexivity|].
  exists soup. split; [now exists r|]. split; [reflexivity|].
  apply new_truncate_bound.
Qed.

(** X6.  The extractor makes exactly one request, the GET of the URL it
    is given, and never raises: it returns nothing when that GET raises,
    when [raise_for_status] raises or when the body cannot be parsed, and
    otherwise the text of the parsed page, which is never longer than
    50,023 characters in [main.py] and 50,015 in [new_main.py]. *)
Theorem extractor_outcome :
  forall w url t,
    (exists o,
        Main.get_policy_text w url t = (Return o, t ++ [GET url])
        /\ extracted w t url Main.page_text (50 * 1000 + 23) o)
    /\ (exists o,
           NewMain.extract_policy_text w url t = (Return o, t ++ [GET url])
           /\ extracted w t url NewMain.page_text (50 * 1000 + 15) o).
Proof.
  intros w url t. split.
  - apply main_extract_outcome.
  - apply new_extract_outcome.
Qed.

(** ** The shape of the returned text *)

Lemma single_spaced_collapse (s : str) :
  forall b, single_spaced b (collapse_runs b s) = true.
Proof.
  induction s as [|c s IH]; intros b; [reflexivity|].
  cbn [collapse_runs]. destruct (isspace c) eqn:Hc.
  - destruct b; [apply IH|].
    cbn [single_spaced]. change (isspace space) with true.
    cbn [Ascii.eqb]. now rewrite Ascii.eqb_refl, IH.
  - cbn [single_spaced]. now rewrite Hc, IH.
Qed.

Lemma single_spaced_weaken (s : str) (b : bool) :
  single_spaced true s = true -> single_spaced b s = true.
Proof.
  destruct s as [|c s]; [reflexivity|]. cbn [single_spaced].
  destruct (isspace c); [|easy].
  now rewrite andb_false_r.
Qed.

Lemma single_spaced_app (x y : str) :
  forall b, single_spaced b x = true -> single_spaced true y = true ->
            single_spaced b (x ++ y) = true.
Proof.
  induction x as [|c x IH]; intros b Hx Hy.
  - now apply single_spaced_weaken.
  - cbn [app single_spaced] in *. destruct (isspace c).
    + apply andb_true_iff in Hx as [H1 H2]. rewrite H1. now apply IH.
    + now apply IH.
Qed.

Lemma single_spaced_firstn (n : nat) (s : str) :
  forall b, single_spaced b s = true ->
            single_spaced b (firstn n s) = true.
Proof.
  revert s. induction n as [|n IH]; intros s b H; [reflexivity|].
  destruct s as [|c s]; [reflexivity|].
  cbn [firstn single_spaced] in *. destruct (isspace c).
  - apply andb_true_iff in H as [H1 H2]. rewrite H1. now apply IH.
  - now apply IH.
Qed.

Lemma single_spaced_chars (s : str) :
  forall b, single_spaced b s = true ->
            forall c, In c s -> isspace c = true -> c = space.
Proof.
  induction s as [|x s IH]; intros b H c I W; [destruct I|].
  destruct I as [E|I].
  - subst x. cbn [single_spaced] in H. rewrite W in H.
    apply andb_true_iff in H as [H _]. apply andb_true_iff in H as [H _].
    now apply Ascii.eqb_eq.
  - cbn [single_spaced] in H. destruct (isspace x).
    + apply andb_true_iff in H as [_ H]. now apply (IH true).
    + now apply (IH false).
Qed.

Lemma single_spaced_pairs (s : str) :
  forall b, single_spaced b s = true ->
            forall x c1 c2 y, s = x ++ c1 :: c2 :: y ->
                              isspace c1 = true -> isspace c2 = false.
Proof.
  intros b H x. revert s b H.
  induction x as [|c x IH]; intros s b H c1 c2 y -> W.
  - cbn [app single_spaced] in H. rewrite W in H.
    apply andb_true_iff in H as [_ H].
    destruct (isspace c2); [|reflexivity].
    apply andb_true_iff in H as [H _]. now rewrite andb_false_r in H.
  - cbn [app single_spaced] in H. destruct (isspace c).
    + apply andb_true_iff in H as [_ H]. now apply (IH _ true H c1 c2 y).
    + now apply (IH _ false H c1 c2 y).
Qed.

Lemma main_page_text_single_spaced (w : World) (soup : Soup) :
  single_spaced false (Main.page_text w soup) = true.
Proof.
  unfold Main.page_text. rewrite main_clean_collapses.
  unfold collapse_whitespace, Main.truncate.
  destruct (Main.MAX_CHARS <? _).
  - apply single_spaced_app; [|reflexivity].
    apply single_spaced_firstn, single_spaced_collapse.
  - apply single_spaced_collapse.
Qed.

(** X7.  In every text [main.py]'s extractor takes from a page, the
    truncation marker included, the only whitespace character is the
    space and no two whitespace characters are adjacent: the text is one
    line of words with single spaces between them. *)
Theorem main_text_is_single_spaced :
  forall w soup,
    let text := Main.page_text w soup in
    (forall c, In c text -> isspace c = true -> c = space)
    /\ (forall x c1 c2 y, text = x ++ c1 :: c2 :: y ->
                          isspace c1 = true -> isspace c2 = false).
Proof.
  intros w soup text. split.
  - apply (single_spaced_chars _ false), main_page_text_single_spaced.
  - apply (single_spaced_pairs _ false), main_page_text_single_spaced.
Qed.

Lemma newline_runs_collapsed (s : str) :
  forall k, newline_runs_short k (collapse_newline_runs k s) = true.
Proof.
  induction s as [|c s IH]; intros k; [reflexivity|].
  cbn [collapse_newline_runs]. fold (is_nl c).
  destruct (is_nl c) eqn:Hc.
  - destruct (k <? 2) eqn:Hk; [|apply IH].
    cbn [newline_runs_short]. change (is_nl nl) with true. cbv iota.
    now rewrite Hk, IH.
  - cbn [newline_runs_short]. now rewrite Hc, IH.
Qed.

Lemma newline_runs_weaken (s : str) :
  forall j k, j <= k -> newline_runs_short k s = true ->
              newline_runs_short j s = true.
Proof.
  induction s as [|c s IH]; intros j k L H; [reflexivity|].
  cbn [newline_runs_short] in *. destruct (is_nl c).
  - apply andb_true_iff in H as [H1 H2]. apply Nat.ltb_lt in H1.
    apply andb_true_iff. split; [apply Nat.ltb_lt; lia|].
    apply (IH (S j) (S k)); [lia|exact H2].
  - exact H.
Qed.

Lemma newline_runs_suffix (x y : str) :
  forall k, newline_runs_short k (x ++ y) = true ->
            newline_runs_short 0 y = true.
Proof.
  induction x as [|c x IH]; intros k H.
  - apply (newline_runs_weaken y 0 k); [lia|exact H].
  - cbn [app newline_runs_short] in H. destruct (is_nl c).
    + apply andb_true_iff in H as [_ H]. now apply IH in H.
    + now apply IH in H.
Qed.

Lemma newline_runs_prefix (x y : str) :
  forall k, newline_runs_short k (x ++ y) = true ->
            newline_runs_short k x = true.
Proof.
  induction x as [|c x IH]; intros k H; [reflexivity|].
  cbn [app newline_runs_short] in *. destruct (is_nl c).
  - apply andb_true_iff in H as [H1 H2]. rewrite H1. now apply IH.
  - now apply IH.
Qed.

Lemma newline_runs_no_nl (m : str) :
  forallb (fun c => negb (is_nl c)) m = true ->
  forall k, newline_runs_short k m = true.
Proof.
  induction m as [|c m IH]; intros H k; [reflexivity|].
  cbn [forallb] in H. apply andb_true_iff in H as [H1 H2].
  cbn [newline_runs_short]. destruct (is_nl c); [discriminate|].
  now apply IH.
Qed.

Lemma newline_runs_app (x m : str) :
  forallb (fun c => negb (is_nl c)) m = true ->
  forall k, newline_runs_short k x = true ->
            newline_runs_short k (x ++ m) = true.
Proof.
  intros Hm. induction x as [|c x IH]; intros k H.
  - now apply newline_runs_no_nl.
  - cbn [app newline_runs_short] in *. destruct (is_nl c).
    + apply andb_true_iff in H as [H1 H2]. rewrite H1. now apply IH.
    + now apply IH.
Qed.

Lemma rstrip_prefix (s : str) : exists rest, s = rstrip s ++ rest.
Proof.
  unfold rstrip. destruct (lstrip_suffix (rev s)) as [pre E].
  exists (rev pre). apply (f_equal (@rev ascii)) in E.
  now rewrite rev_involutive, rev_app_distr in E.
Qed.

Lemma newline_runs_strip (s : str) (k : nat) :
  newline_runs_short k s = true -> newline_runs_short 0 (strip s) = true.
Proof.
  intros H. unfold strip.
  destruct (lstrip_suffix s) as [pre E]. rewrite E in H.
  apply newline_runs_suffix in H.
  destruct (rstrip_prefix (lstrip s)) as [rest R]. rewrite R in H.
  now apply newline_runs_prefix in H.
Qed.

Lemma newline_runs_triple (s : str) (k : nat) :
  newline_runs_short k s = true -> ~ contains [nl; nl; nl] s.
Proof.
  intros H (x & y & ->). apply newline_runs_suffix in H.
  cbn in H. discriminate.
Qed.

Lemma new_clean_newline_runs (s : str) :
  newline_runs_short 0 (NewMain.clean s) = true.
Proof.
  rewrite new_clean_collapses.
  apply (newline_runs_strip _ 0), newline_runs_collapsed.
Qed.

(** X8.  No text [new_main.py]'s extractor takes from a page has three
    newlines in a row, and none starts with whitespace. *)
Theorem new_text_has_no_long_newline_run :
  forall w soup,
    ~ contains [nl; nl; nl] (NewMain.page_text w soup)
    /\ starts_clean (NewMain.page_text w soup).
Proof.
  intros w soup. unfold NewMain.page_text.
  set (cleaned := NewMain.clean (NewMain.raw_content w soup)).
  assert (C : newline_runs_short 0 cleaned = true)
    by apply new_clean_newline_runs.
  assert (T : trimmed cleaned) by apply strip_trimmed.
  split.
  - apply (newline_runs_triple _ 0). unfold NewMain.truncate.
    apply newline_runs_app.
    + now destruct (NewMain.MAX_CHARS <? len cleaned).
    + rewrite <- (firstn_skipn NewMain.MAX_CHARS cleaned) in C.
      now apply newline_runs_prefix in C.
  - unfold NewMain.truncate. destruct T as [T _].
    destruct cleaned as [|c r]; [|exact T].
    rewrite firstn_nil. cbn [len length app].
    now destruct (NewMain.MAX_CHARS <? 0).
Qed.

Lemma collapse_runs_idempotent (s : str) :
  forall b, collapse_runs b (collapse_runs b s) = collapse_runs b s.
Proof.
  induction s as [|c s IH]; intros b; [reflexivity|].
  cbn [collapse_runs]. destruct (isspace c) eqn:Hc.
  - destruct b; [apply IH|].
    cbn [collapse_runs]. change (isspace space) with true. cbv iota.
    now rewrite IH.
  - cbn [collapse_runs]. now rewrite Hc, IH.
Qed.

Lemma collapse_newline_runs_fixed (s : str) :
  forall k, newline_runs_short k s = true ->
            collapse_newline_runs k s = s.
Proof.
  induction s as [|c s IH]; intros k H; [reflexivity|].
  cbn [newline_runs_short collapse_newline_runs] in *.
  fold (is_nl c). destruct (is_nl c) eqn:Hc.
  - apply andb_true_iff in H as [H1 H2]. rewrite H1.
    assert (c = nl) by (now apply Ascii.eqb_eq). subst c.
    now rewrite IH.
  - now rewrite IH.
Qed.

(** X9.  Cleaning a text a second time changes nothing, in either file:
    [clean (clean s) = clean s]. *)
Theorem clean_is_idempotent :
  forall s,
    Main.clean (Main.clean s) = Main.clean s
    /\ NewMain.clean (NewMain.clean s) = NewMain.clean s.
Proof.
  intros s. split.
  - rewrite !main_clean_collapses. apply collapse_runs_idempotent.
  - rewrite (new_clean_collapses (NewMain.clean s)).
    unfold collapse_newlines.
    rewrite collapse_newline_runs_fixed by apply new_clean_newline_runs.
    apply strip_id. unfold NewMain.clean. apply strip_trimmed.
Qed.

(** ** The requests and the statuses of a worker *)

Lemma probe_paths_trace (w : World) (base : str) (paths : list str) :
  forall t, exists o hs,
    probe_paths w base paths t = (o, t ++ hs)
    /\ forallb is_head hs = true
    /\ length hs <= length paths.
Proof.
  induction paths as [|path rest IH]; intros t.
  - exists (Return None), []. cbn. rewrite app_nil_r. repeat split. lia.
  - cbn [probe_paths]. unfold bind, lift, try_except, head, ret.
    destruct (urljoin w base path) as [url|e].
    2:{ exists (Raise e), []. rewrite app_nil_r. cbn. repeat split. lia. }
    assert (Miss : exists o hs,
               probe_paths w base rest (t ++ [HEAD url]) = (o, t ++ hs)
               /\ forallb is_head hs = true
               /\ length hs <= length (path :: rest)).
    { destruct (IH (t ++ [HEAD url])) as (o & hs & E & H & L).
      exists o, (HEAD url :: hs). rewrite E, <- app_assoc.
      repeat split; [exact H | cbn [length]; lia]. }
    destruct (session_head w t url) as [r|e]; [|exact Miss].
    destruct (status_code r =? 200); [|exact Miss].
    exists (Return (Some url)), [HEAD url]. repeat split.
    cbn [length]. lia.
Qed.

Lemma main_find_trace (w : World) (domain : str) (t : trace) :
  exists o hs,
    Main.find_privacy_policy_url w domain t
    = (Return o, t ++ GET (normalize_url domain) :: hs)
    /\ forallb is_head hs = true
    /\ length hs <= 11.
Proof.
  unfold Main.find_privacy_policy_url, Main.find_privacy_policy_url_with,
    try_except, bind, get, lift, ret.
  assert (Z : forall o : option str,
             exists o' hs,
               (Return o, t ++ [GET (normalize_url domain)])
               = (Return o', t ++ GET (normalize_url domain) :: hs)
               /\ forallb is_head hs = true /\ length hs <= 11).
  { intros o. exists o, []. repeat split. cbn. lia. }
  destruct (session_get w t (normalize_url domain)) as [r|e]; [|apply Z].
  destruct (raise_for_status r) as [[]|e]; [|apply Z].
  destruct (BeautifulSoup w (text r)) as [soup|e]; [|apply Z].
  destruct (scan_anchors w Main.privacy_patterns (normalize_url domain)
              (find_all_a_href soup)) as [[u|]|e]; [apply Z| |apply Z].
  destruct (probe_paths_trace w (normalize_url domain) Main.common_paths
              (t ++ [GET (normalize_url domain)])) as (o & hs & E & H & L).
  rewrite E, <- app_assoc. cbn [app].
  destruct o as [o|e]; [exists o, hs | exists None, hs];
    repeat split; assumption.
Qed.

Lemma new_find_trace (w : World) (domain : str) (t : trace) :
  exists o hs,
    NewMain.find_policy_url w domain t
    = (Return o, t ++ GET (normalize_url domain) :: hs)
    /\ forallb is_head hs = true
    /\ length hs <= 5.
Proof.
  unfold NewMain.find_policy_url, NewMain.find_policy_url_with,
    try_except, bind, get, lift, ret.
  assert (Z : forall o : option str,
             exists o' hs,
               (Return o, t ++ [GET (normalize_url domain)])
               = (Return o', t ++ GET (normalize_url domain) :: hs)
               /\ forallb is_head hs = true /\ length hs <= 5).
  { intros o. exists o, []. repeat split. cbn. lia. }
  destruct (session_get w t (normalize_url domain)) as [r|e]; [|apply Z].
  destruct (raise_for_status r) as [[]|e]; [|apply Z].
  destruct (BeautifulSoup w (text r)) as [soup|e]; [|apply Z].
  destruct (scan_anchors w NewMain.patterns (normalize_url domain)
              (find_all_a_href soup)) as [[u|]|e]; [apply Z| |apply Z].
  destruct (probe_paths_trace w (normalize_url domain)
              NewMain.fallback_paths
              (t ++ [GET (normalize_url domain)])) as (o & hs & E & H & L).
  rewrite E, <- app_assoc. cbn [app].
  destruct o as [o|e]; [exists o, hs | exists None, hs];
    repeat split; assumption.
Qed.

(** Once its pause and its domain lookup have returned, a worker makes
    its requests in this order: the GET of the normalised home page, then
    only HEAD probes (at most eleven in [main.py], five in [new_main.py]),
    then at most one more GET, which is made exactly when the result has a
    policy URL and is for that URL.  Its status is one of the three
    regular ones. *)
Lemma worker_requests_after_pause :
  forall w domain t,
    (exists r after,
        Main.scrape_single_site w domain t = (Return r, t ++ after)
        /\ worker_requests (normalize_url domain) 11 r after
        /\ (status r = py "success"
            \/ status r = py "text_extraction_failed"
            \/ status r = py "policy_not_found"))
    /\ (exists r after,
           NewMain.scrape_site w domain t = (Return r, t ++ after)
           /\ worker_requests (normalize_url domain) 5 r after
           /\ (status r = py "success"
               \/ status r = py "text_too_short"
               \/ status r = py "not_found")).
Proof.
  intros w domain t. split.
  - unfold Main.scrape_single_site, try_except, bind, ret.
    destruct (main_find_trace w domain t) as (o & hs & E & H & L).
    rewrite E. destruct o as [[|c u]|]; try worker_case hs.
    destruct (main_extract_outcome w (c :: u)
                (t ++ GET (normalize_url domain) :: hs)) as (x & X & _).
    rewrite X. destruct x as [[|d x]|]; try worker_case hs.
    destruct (100 <? len (strip (d :: x))); worker_case hs.
  - unfold NewMain.scrape_site, NewMain._result, try_except, bind, ret.
    destruct (new_find_trace w domain t) as (o & hs & E & H & L).
    rewrite E. destruct o as [[|c u]|]; try worker_case hs.
    destruct (new_extract_outcome w (c :: u)
                (t ++ GET (normalize_url domain) :: hs)) as (x & X & _).
    rewrite X. destruct x as [[|d x]|]; try worker_case hs.
    destruct (len (strip (d :: x)) <? 100); worker_case hs.
Qed.

(** ** The coordinator, task by task *)

Lemma str_eqb_eq (a b : str) : str_eqb a b = true <-> a = b.
Proof.
  revert b. induction a as [|x a IH]; intros [|y b]; cbn [str_eqb];
    try (split; [discriminate|discriminate]); [easy|].
  rewrite andb_true_iff, Ascii.eqb_eq, IH. split.
  - now intros [-> ->].
  - now intros [= -> ->].
Qed.

Lemma main_collect_count (w : World) (done : list Future) :
  forall results n,
    snd (Main.collect w done results n)
    = n + length (filter succeeded (map (Main.settle w) done)).
Proof.
  induction done as [|[domain [r|e]] rest IH]; intros results n;
    cbn [Main.collect map filter Main.settle].
  - cbn. lia.
  - rewrite IH. unfold succeeded at 2.
    destruct (str_eqb (status r) (py "success")); cbn [length]; lia.
  - rewrite IH. reflexivity.
Qed.



Lemma filter_partition_length {A} (f : A -> bool) (l : list A) :
  length (filter f l) + length (filter (fun x => negb (f x)) l) = length l.
Proof.
  induction l as [|x l IH]; [reflexivity|].
  cbn [filter]. destruct (f x); cbn [negb length]; lia.
Qed.

(** X12.  The number of successes that [scrape_privacy_policies] counts
    is the number of results with status ["success"], and together with
    the failed results that [main()] lists afterwards it makes up the
    number of finished tasks: no result is counted twice or left out. *)
Theorem successes_and_failures_add_up :
  forall w done,
    let results := fst (Main.collect w done [] 0) in
    let successful_scrapes := snd (Main.collect w done [] 0) in
    successful_scrapes = length (filter succeeded results)
    /\ successful_scrapes + length (Main.failed_sites results)
       = length done
    /\ Forall (fun r => status r <> py "success")
              (Main.failed_sites results).
Proof.
  intros w done results n. subst results n.
  rewrite main_collect_count, main_collect_results. cbn [app Nat.add].
  split; [reflexivity|]. split.
  - unfold Main.failed_sites.
    change (fun r => negb (str_eqb (status r) (py "success")))
      with (fun r => negb (succeeded r)).
    now rewrite filter_partition_length, length_map.
  - apply Forall_forall. intros r H.
    apply filter_In in H as [_ H]. intros E.
    apply str_eqb_eq in E. now rewrite E in H.
Qed.


Lemma new_collect_raises (pre post : list Future) (domain e : str) :
  Forall (fun f => exists r, snd f = Return r) pre ->
  forall results,
    NewMain.collect (pre ++ (domain, Raise e) :: post) results = Raise e.
Proof.
  induction 1 as [|[d o] pre [r E] _ IH]; intros results.
  - reflexivity.
  - cbn [snd] in E. subst o. cbn [app NewMain.collect]. apply IH.
Qed.

(** X14.  [new_main.py]'s loop over the finished tasks has no handler:
    at the first task, in order of completion, whose [result()] raises,
    the loop ends with that exception, and the results of the tasks that
    finished before it are not returned. *)
Theorem new_batch_stops_at_first_exception :
  forall pre domain e post,
    Forall (fun f => exists r, snd f = Return r) pre ->
    NewMain.collect (pre ++ (domain, Raise e) :: post) [] = Raise e.
Proof.
  intros pre domain e post H. now apply new_collect_raises.
Qed.

Lemma new_batch_stops_at_first_exception_witness :
  NewMain.collect
    [ (py "a.com", Return (mkResult (py "A") (py "a.com") [] []
                                    (py "not_found")));
      (py "b.com", Raise (py "boom"));
      (py "c.com", Return (mkResult (py "C") (py "c.com") [] []
                                    (py "not_found"))) ] []
  = Raise (py "boom").
Proof.
  apply (new_batch_stops_at_first_exception
           [ (py "a.com", Return (mkResult (py "A") (py "a.com") [] []
                                           (py "not_found"))) ]
           (py "b.com") (py "boom")
           [ (py "c.com", Return (mkResult (py "C") (py "c.com") [] []
                                           (py "not_found"))) ]).
  constructor; [|constructor]. eexists. reflexivity.
Defined.

(** ** The CSV tables *)

Lemma full_rows_summary (strftime : nat -> str -> str)
    (results : list Result) :
  forall i,
    length (Main.full_rows strftime i results) = length results
    /\ Forall (fun row => length row = 7)
              (Main.full_rows strftime i results)
    /\ map (pick [0; 1; 2; 4; 5]) (Main.full_rows strftime i results)
       = map Main.summary_row results
    /\ map (pick [1; 3; 5]) (Main.full_rows strftime i results)
       = map (fun r => [ Text (site r); Text (result_text r);
                         Number (len (result_text r)) ]) results.
Proof.
  induction results as [|r rest IH]; intros i.
  - repeat split. constructor.
  - destruct (IH (S i)) as (A & B & C & D).
    cbn [Main.full_rows length map]. rewrite A, C, D.
    repeat split. constructor; [reflexivity|exact B].
Qed.

(** X15.  [save_results] and [save_csv] each write two files with
    different names, so the summary never overwrites the full table.
    Each table is a header followed by one row per result, in the order
    of the results, and every row is as wide as its header.  The
    text-length cell of a row is the length of its text cell.  The rows of
    the summary are the rows of the full table without two of its
    columns: in [main.py] without the text and the timestamp (the text
    length stays), in [new_main.py] without the text and the text
    length. *)
Theorem csv_tables :
  forall strftime output_prefix results,
    (exists name1 header1 rows1 name2 header2 rows2,
        Main.save_results strftime results
        = [(name1, header1 :: rows1); (name2, header2 :: rows2)]
        /\ name1 <> name2
        /\ length rows1 = length results
        /\ Forall (fun row => length row = length header1) rows1
        /\ Forall (fun row => length row = length header2) rows2
        /\ rows2 = map (pick [0; 1; 2; 4; 5]) rows1
        /\ map (pick [1; 3; 5]) rows1
           = map (fun r => [ Text (site r); Text (result_text r);
                             Number (len (result_text r)) ]) results)
    /\ (exists name1 header1 rows1 name2 header2 rows2,
           NewMain.save_csv output_prefix results
           = [(name1, header1 :: rows1); (name2, header2 :: rows2)]
           /\ name1 <> name2
           /\ length rows1 = length results
           /\ Forall (fun row => length row = length header1) rows1
           /\ Forall (fun row => length row = length header2) rows2
           /\ rows2 = map (pick [0; 1; 2; 4]) rows1
           /\ map (pick [1; 3; 5]) rows1
              = map (fun r => [ Text (site r); Text (result_text r);
                                Number (len (result_text r)) ]) results).
Proof.
  intros strftime output_prefix results. split.
  - destruct (full_rows_summary strftime results 1) as (A & B & C & D).
    unfold Main.save_results. cbv zeta.
    do 6 eexists. split; [reflexivity|].
    split; [|split; [exact A|split; [exact B|split; [|split]]]].
    + intros E. apply (f_equal (@length ascii)) in E.
      rewrite !length_app in E. cbn in E. lia.
    + apply Forall_forall. intros row H.
      apply in_map_iff in H as (r & <- & _). reflexivity.
    + now rewrite C.
    + exact D.
  - unfold NewMain.save_csv. cbv zeta.
    do 6 eexists. split; [reflexivity|].
    split; [|split; [apply length_map|split; [|split; [|split]]]].
    + intros E. apply (f_equal (@length ascii)) in E.
      rewrite !length_app in E. cbn in E. lia.
    + apply Forall_forall. intros row H.
      apply in_map_iff in H as (r & <- & _). reflexivity.
    + apply Forall_forall. intros row H.
      apply in_map_iff in H as (r & <- & _). reflexivity.
    + rewrite map_map. reflexivity.
    + rewrite map_map. reflexivity.
Qed.

(** ** From the link to the result *)

Lemma patterns_agree (a : str * Tag) :
  anchor_matches NewMain.patterns a
  = anchor_matches Main.privacy_patterns a.
Proof.
  apply Bool.eq_iff_eq_true.
  rewrite (anchor_matches_iff NewMain.patterns a new_patterns_shape)
    by (cbn; tauto).
  rewrite (anchor_matches_iff Main.privacy_patterns a main_patterns_shape)
    by (cbn; tauto).
  reflexivity.
Qed.

Lemma main_extract_parsed (w : World) (url : str) (t : trace)
    (page : Soup) :
  get_parses w t url page ->
  Main.get_policy_text w url t
  = (Return (Some (Main.page_text w page)), t ++ [GET url]).
Proof.
  intros (r & G & S & P).
  unfold Main.get_policy_text, try_except, bind, get, lift, ret.
  now rewrite G, S, P.
Qed.

Lemma new_extract_parsed (w : World) (url : str) (t : trace)
    (page : Soup) :
  get_parses w t url page ->
  NewMain.extract_policy_text w url t
  = (Return (Some (NewMain.page_text w page)), t ++ [GET url]).
Proof.
  intros (r & G & S & P).
  unfold NewMain.extract_policy_text, try_except, bind, get, lift, ret.
  now rewrite G, S, P.
Qed.

Lemma strip_nil_short (text : str) (n : nat) :
  n < len (strip text) -> text <> [].
Proof. intros H ->. cbn in H. lia. Qed.

(** X16.  When the home page is fetched and parsed, its first matching
    anchor joins to a non-empty URL and the page at that URL is fetched
    and parsed, the worker makes exactly those two GET requests and its
    result carries that URL.  [main.py] reports ["success"] with the
    page's text when the stripped text has more than 100 characters and
    ["text_extraction_failed"] with an empty text otherwise;
    [new_main.py] reports ["success"] from 100 characters on and
    ["text_too_short"] below. *)
Theorem linked_policy_is_scraped :
  forall w domain t home pre a post u page,
    let base := normalize_url domain in
    get_parses w t base home ->
    find_all_a_href home = pre ++ a :: post ->
    (forall x, In x pre -> anchor_matches Main.privacy_patterns x = false) ->
    anchor_matches Main.privacy_patterns a = true ->
    urljoin w base (fst a) = Return u ->
    u <> [] ->
    get_parses w (t ++ [GET base]) u page ->
    Main.scrape_single_site w domain t
    = (Return (if 100 <? len (strip (Main.page_text w page))
               then mkResult (company_of w domain) domain u
                             (Main.page_text w page) (py "success")
               else mkResult (company_of w domain) domain u []
                             (py "text_extraction_failed")),
       t ++ [GET base; GET u])
    /\ NewMain.scrape_site w domain t
       = (Return (if len (strip (NewMain.page_text w page)) <? 100
                  then mkResult (company_of w domain) domain u []
                                (py "text_too_short")
                  else mkResult (company_of w domain) domain u
                                (NewMain.page_text w page) (py "success")),
          t ++ [GET base; GET u]).
Proof.
  intros w domain t home pre a post u page base G E Hpre Ha U N P.
  assert (T : (t ++ [GET base]) ++ [GET u] = t ++ [GET base; GET u])
    by now rewrite <- app_assoc.
  destruct u as [|c u]; [contradiction|]. split.
  - unfold Main.scrape_single_site, try_except, bind, ret.
    fold base.
    rewrite (main_find_first_anchor Main.privacy_patterns w domain t home
               pre post a (c :: u) G E Hpre Ha U
             : Main.find_privacy_policy_url w domain t = _).
    fold base. rewrite (main_extract_parsed w (c :: u) _ page P), T.
    destruct (Main.page_text w page) as [|d x] eqn:X.
    + reflexivity.
    + now destruct (100 <? len (strip (d :: x))).
  - unfold NewMain.scrape_site, NewMain._result, try_except, bind, ret.
    rewrite (new_find_first_anchor NewMain.patterns w domain t home
               pre post a (c :: u) G E
               (fun x I => eq_trans (patterns_agree x) (Hpre x I))
               (eq_trans (patterns_agree a) Ha) U
             : NewMain.find_policy_url w domain t = _).
    fold base. rewrite (new_extract_parsed w (c :: u) _ page P), T.
    destruct (NewMain.page_text w page) as [|d x] eqn:X.
    + reflexivity.
    + now destruct (len (strip (d :: x)) <? 100).
Qed.

Lemma success_home_parses :
  get_parses Success.world [] (normalize_url (py "example.net"))
             Success.home.
Proof. exists (mkResponse 200 (py "home") (Return tt)). repeat split. Qed.

Lemma success_policy_parses :
  get_parses Success.world [GET (py "https://example.net")]
             (py "https://example.net/legal") Success.policy.
Proof. exists (mkResponse 200 (py "policy") (Return tt)). repeat split. Qed.

Lemma linked_policy_is_scraped_witness :
  Main.scrape_single_site Success.world (py "example.net") []
  = (Return (mkResult (py "example.net") (py "example.net")
                      (py "https://example.net/legal")
                      (repeat "a"%char 500) (py "success")),
     [GET (py "https://example.net");
      GET (py "https://example.net/legal")]).
Proof.
  destruct (linked_policy_is_scraped Success.world (py "example.net")
              [] Success.home
              [(py "/about", mkTag [py "About"])]
              (py "/legal", mkTag [py " Privacy Notice "]) []
              (py "https://example.net/legal") Success.policy
              success_home_parses eq_refl) as [A _].
  - intros x [<-|[]]. reflexivity.
  - reflexivity.
  - reflexivity.
  - discriminate.
  - exact success_policy_parses.
  - rewrite A. vm_compute. reflexivity.
Defined.

(** ** The two resolvers side by side *)

Lemma scan_anchors_agree (w : World) (base : str)
    (anchors : list (str * Tag)) :
  scan_anchors w NewMain.patterns base anchors
  = scan_anchors w Main.privacy_patterns base anchors.
Proof.
  induction anchors as [|a rest IH]; [reflexivity|].
  cbn [scan_anchors]. now rewrite patterns_agree, IH.
Qed.

Lemma scan_anchors_some_match (w : World) (pats : list pattern)
    (base : str) (anchors : list (str * Tag)) :
  existsb (anchor_matches pats) anchors = true ->
  scan_anchors w pats base anchors <> Return None.
Proof.
  induction anchors as [|a rest IH]; cbn [existsb scan_anchors];
    [discriminate|].
  destruct (anchor_matches pats a); [|exact IH].
  intros _. now destruct (urljoin w base (fst a)).
Qed.

(** X17.  On a home page that is fetched and parsed and has a matching
    anchor, [main.py]'s resolver and [new_main.py]'s make the same single
    request and return the same answer; the two can differ only when no
    anchor matches, where they probe different lists of paths. *)
Theorem resolvers_agree_on_links :
  forall w domain t home,
    get_parses w t (normalize_url domain) home ->
    existsb (anchor_matches Main.privacy_patterns) (find_all_a_href home)
    = true ->
    NewMain.find_policy_url w domain t
    = Main.find_privacy_policy_url w domain t
    /\ snd (Main.find_privacy_policy_url w domain t)
       = t ++ [GET (normalize_url domain)].
Proof.
  intros w domain t home (r & G & S & P) M.
  unfold NewMain.find_policy_url, NewMain.find_policy_url_with,
    Main.find_privacy_policy_url, Main.find_privacy_policy_url_with,
    try_except, bind, get, lift, ret.
  rewrite G, S, P, scan_anchors_agree.
  pose proof (scan_anchors_some_match w Main.privacy_patterns
                (normalize_url domain) _ M) as N.
  destruct (scan_anchors w Main.privacy_patterns (normalize_url domain)
              (find_all_a_href home)) as [[u|]|e];
    [split; reflexivity | contradiction | split; reflexivity].
Qed.

Lemma resolvers_agree_on_links_witness :
  NewMain.find_policy_url Example.world (py "example.com") []
  = Main.find_privacy_policy_url Example.world (py "example.com") [].
Proof.
  apply (resolvers_agree_on_links Example.world (py "example.com") []
           Example.home example_home_parses).
  reflexivity.
Defined.

(** ** What a result holds *)


Lemma new_collect_in_order (done : list Future) :
  Forall returned done ->
  forall results,
    exists rest,
      NewMain.collect done results = Return (results ++ rest)
      /\ Forall2 (fun f r => snd f = Return r /\ site r = fst f) done rest.
Proof.
  induction 1 as [|[domain o] done (r & E & S) _ IH]; intros results.
  - exists []. rewrite app_nil_r. split; [reflexivity|constructor].
  - cbn [fst snd] in E, S. subst o. cbn [NewMain.collect].
    destruct (IH (results ++ [r])) as (rest & C & F).
    exists (r :: rest). rewrite C, <- app_assoc. split; [reflexivity|].
    constructor; [now split | exact F].
Qed.

(** Once every pause and domain lookup has returned and the pool gives
    back every submitted task once, the batch run of [new_main.py] returns
    the tasks' results in the order in which the tasks finished. *)
Lemma new_results_after_pause :
  forall net as_completed sites,
    Permutation (as_completed (NewMain.submit_all net 0 sites))
                (NewMain.submit_all net 0 sites) ->
    exists results,
      NewMain.scrape_all net as_completed sites = Return results
      /\ Forall2 (fun f r => snd f = Return r /\ site r = fst f)
                 (as_completed (NewMain.submit_all net 0 sites)) results.
Proof.
  intros net as_completed sites P. unfold NewMain.scrape_all.
  destruct (new_submit_all_returned net sites 0) as [_ B].
  assert (D : Forall returned (as_completed (NewMain.submit_all net 0 sites)))
    by (eapply Permutation_Forall; [symmetry; exact P | exact B]).
  destruct (new_collect_in_order _ D []) as (rest & C & F).
  exists rest. split; [exact C | exact F].
Qed.

(** ** The whole worker: the pause and the domain lookup *)

(** The resolver and the extractor never look the domain up. *)
Lemma scan_anchors_with_lookup (w : World) (rt : Runtime)
    (pats : list pattern) (base : str) (anchors : list (str * Tag)) :
  scan_anchors (with_lookup w rt) pats base anchors
  = scan_anchors w pats base anchors.
Proof.
  induction anchors as [|a rest IH]; cbn [scan_anchors]; [reflexivity|].
  now rewrite IH.
Qed.

Lemma probe_paths_with_lookup (w : World) (rt : Runtime) (base : str)
    (paths : list str) :
  forall t,
    probe_paths (with_lookup w rt) base paths t = probe_paths w base paths t.
Proof.
  induction paths as [|path rest IH]; intros t; cbn [probe_paths];
    [reflexivity|].
  unfold bind, lift, try_except, head, ret. cbn [with_lookup urljoin].
  destruct (urljoin w base path) as [u|e]; [|reflexivity].
  cbn [with_lookup session_head].
  destruct (session_head w t u) as [r|e]; [|apply IH].
  destruct (status_code r =? 200); [reflexivity|apply IH].
Qed.

Lemma main_find_with_lookup (w : World) (rt : Runtime) (site : str)
    (t : trace) :
  Main.find_privacy_policy_url (with_lookup w rt) site t
  = Main.find_privacy_policy_url w site t.
Proof.
  unfold Main.find_privacy_policy_url, Main.find_privacy_policy_url_with,
    try_except, bind, lift, get, ret.
  cbn [with_lookup session_get BeautifulSoup].
  destruct (session_get w t (normalize_url site)) as [r|e]; [|reflexivity].
  destruct (raise_for_status r) as [[]|e]; [|reflexivity].
  destruct (BeautifulSoup w (text r)) as [soup|e]; [|reflexivity].
  rewrite scan_anchors_with_lookup.
  destruct (scan_anchors w Main.privacy_patterns (normalize_url site)
              (find_all_a_href soup)) as [[u|]|e];
    first [now rewrite probe_paths_with_lookup | reflexivity].
Qed.

Lemma main_text_with_lookup (w : World) (rt : Runtime) (url : str)
    (t : trace) :
  Main.get_policy_text (with_lookup w rt) url t
  = Main.get_policy_text w url t.
Proof. reflexivity. Qed.

Lemma new_find_with_lookup (w : World) (rt : Runtime) (site : str)
    (t : trace) :
  NewMain.find_policy_url (with_lookup w rt) site t
  = NewMain.find_policy_url w site t.
Proof.
  unfold NewMain.find_policy_url, NewMain.find_policy_url_with,
    try_except, bind, lift, get, ret.
  cbn [with_lookup session_get BeautifulSoup].
  destruct (session_get w t (normalize_url site)) as [r|e]; [|reflexivity].
  destruct (raise_for_status r) as [[]|e]; [|reflexivity].
  destruct (BeautifulSoup w (text r)) as [soup|e]; [|reflexivity].
  rewrite scan_anchors_with_lookup.
  destruct (scan_anchors w NewMain.patterns (normalize_url site)
              (find_all_a_href soup)) as [[u|]|e];
    first [now rewrite probe_paths_with_lookup | reflexivity].
Qed.

Lemma new_text_with_lookup (w : World) (rt : Runtime) (url : str)
    (t : trace) :
  NewMain.extract_policy_text (with_lookup w rt) url t
  = NewMain.extract_policy_text w url t.
Proof. reflexivity. Qed.

(** When the pause and the domain lookup return, the whole worker goes on
    as the worker does in the world where the lookup has answered. *)
Lemma main_run_after_pause (rt : Runtime) (w : World) (site : str)
    (t : trace) (c : str) :
  pause rt = Return tt ->
  lookup rt site = Return c ->
  Main.scrape_single_site_run rt w site t
  = Main.scrape_single_site (with_lookup w rt) site t
  /\ company_of (with_lookup w rt) site = c.
Proof.
  intros P L. split; [|cbn [with_lookup company_of]; now rewrite L].
  unfold Main.scrape_single_site_run, Main.scrape_single_site, try_except,
    bind, lift, ret.
  cbn [with_lookup company_of]. rewrite P, L.
  rewrite main_find_with_lookup.
  destruct (Main.find_privacy_policy_url w site t)
    as [[[[|x u]|]|e] t1]; rewrite ?main_text_with_lookup; reflexivity.
Qed.

Lemma new_run_after_pause (rt : Runtime) (w : World) (site : str)
    (t : trace) (c : str) :
  pause rt = Return tt ->
  lookup rt site = Return c ->
  NewMain.scrape_site_run rt w site t
  = NewMain.scrape_site (with_lookup w rt) site t
  /\ company_of (with_lookup w rt) site = c.
Proof.
  intros P L. split; [|cbn [with_lookup company_of]; now rewrite L].
  unfold NewMain.scrape_site_run, NewMain.scrape_site, try_except,
    bind, lift, ret.
  cbn [with_lookup company_of]. rewrite P, L.
  rewrite new_find_with_lookup.
  destruct (NewMain.find_policy_url w site t)
    as [[[[|x u]|]|e] t1]; rewrite ?new_text_with_lookup; reflexivity.
Qed.

Lemma main_worker_company (w : World) (domain : str) (t : trace) :
  exists r t',
    Main.scrape_single_site w domain t = (Return r, t')
    /\ company r = company_of w domain.
Proof.
  unfold Main.scrape_single_site, try_except, bind, ret.
  destruct (Main.find_privacy_policy_url w domain t)
    as [[[[|c u]|]|e] t1]; try (eexists; eexists; split; reflexivity).
  destruct (Main.get_policy_text w (c :: u) t1) as [[[[|d x]|]|e] t2];
    try (eexists; eexists; split; reflexivity).
  destruct (100 <? len (strip (d :: x)));
    eexists; eexists; split; reflexivity.
Qed.

Lemma new_worker_company (w : World) (domain : str) (t : trace) :
  exists r t',
    NewMain.scrape_site w domain t = (Return r, t')
    /\ company r = company_of w domain.
Proof.
  unfold NewMain.scrape_site, NewMain._result, try_except, bind, ret.
  destruct (NewMain.find_policy_url w domain t)
    as [[[[|c u]|]|e] t1]; try (eexists; eexists; split; reflexivity).
  destruct (NewMain.extract_policy_text w (c :: u) t1)
    as [[[[|d x]|]|e] t2]; try (eexists; eexists; split; reflexivity).
  destruct (len (strip (d :: x)) <? 100);
    eexists; eexists; split; reflexivity.
Qed.

(** X10.  What a worker does depends on its first two calls, the pause
    and the domain lookup.  When both return, the worker makes its
    requests in this order: the GET of the normalised home page, then only
    HEAD probes (at most eleven in [main.py], five in [new_main.py]), then
    at most one more GET, which is made exactly when the result has a
    policy URL and is for that URL; its result names the domain looked up
    and has one of the three regular statuses, since the resolver and the
    extractor catch every exception of a request themselves.  When the
    pause raises, no request is made: [main.py], whose pause is inside
    the [try], returns a result with the status ["error: ..."], while the
    worker of [new_main.py], whose pause comes before the [try], raises.
    When the domain lookup raises, both workers raise without a request:
    in [main.py] because the handler looks the domain up again. *)
Theorem worker_requests_and_statuses :
  forall rt w domain t,
    ((forall c,
         pause rt = Return tt -> lookup rt domain = Return c ->
         exists r after,
           Main.scrape_single_site_run rt w domain t = (Return r, t ++ after)
           /\ company r = c
           /\ worker_requests (normalize_url domain) 11 r after
           /\ (status r = py "success"
               \/ status r = py "text_extraction_failed"
               \/ status r = py "policy_not_found"))
     /\ (forall e c,
            pause rt = Raise e -> lookup rt domain = Return c ->
            Main.scrape_single_site_run rt w domain t
            = (Return (mkResult c domain [] [] (py "error: " ++ e)), t))
     /\ (forall e,
            lookup rt domain = Raise e ->
            Main.scrape_single_site_run rt w domain t = (Raise e, t)))
    /\ ((forall c,
            pause rt = Return tt -> lookup rt domain = Return c ->
            exists r after,
              NewMain.scrape_site_run rt w domain t = (Return r, t ++ after)
              /\ company r = c
              /\ worker_requests (normalize_url domain) 5 r after
              /\ (status r = py "success"
                  \/ status r = py "text_too_short"
                  \/ status r = py "not_found"))
        /\ (forall e,
               pause rt = Raise e ->
               NewMain.scrape_site_run rt w domain t = (Raise e, t))
        /\ (forall e,
               pause rt = Return tt -> lookup rt domain = Raise e ->
               NewMain.scrape_site_run rt w domain t = (Raise e, t))).
Proof.
  intros rt w domain t. split; (split; [|split]).
  - intros c P L.
    destruct (main_run_after_pause rt w domain t c P L) as [E C].
    destruct (proj1 (worker_requests_after_pause (with_lookup w rt) domain t))
      as (r & after & R & Q & S).
    destruct (main_worker_company (with_lookup w rt) domain t)
      as (r' & t' & R' & K).
    rewrite R in R'. injection R' as <- _.
    exists r, after. rewrite E, R, K, C. repeat split; assumption.
  - intros e c P L.
    unfold Main.scrape_single_site_run, try_except, bind, lift, ret.
    now rewrite P, L.
  - intros e L.
    unfold Main.scrape_single_site_run, try_except, bind, lift, ret.
    rewrite L. now destruct (pause rt) as [[]|e0].
  - intros c P L.
    destruct (new_run_after_pause rt w domain t c P L) as [E C].
    destruct (proj2 (worker_requests_after_pause (with_lookup w rt) domain t))
      as (r & after & R & Q & S).
    destruct (new_worker_company (with_lookup w rt) domain t)
      as (r' & t' & R' & K).
    rewrite R in R'. injection R' as <- _.
    exists r, after. rewrite E, R, K, C. repeat split; assumption.
  - intros e P.
    unfold NewMain.scrape_site_run, try_except, bind, lift, ret.
    now rewrite P.
  - intros e P L.
    unfold NewMain.scrape_site_run, try_except, bind, lift, ret.
    now rewrite P, L.
Qed.

(** A pause of negative length, a domain lookup that fails, and a worker
    whose first two calls return, each on [example.com]. *)
Lemma worker_requests_and_statuses_witness :
  (Main.scrape_single_site_run negative_pause Example.world
     (py "example.com") []
   = (Return (mkResult (py "example.com") (py "example.com") [] []
                (py "error: sleep length must be non-negative")), [])
   /\ NewMain.scrape_site_run negative_pause Example.world
        (py "example.com") []
      = (Raise (py "sleep length must be non-negative"), []))
  /\ (Main.scrape_single_site_run no_lookup Example.world
        (py "example.com") []
      = (Raise (py "lookup failed"), [])
      /\ NewMain.scrape_site_run no_lookup Example.world
           (py "example.com") []
         = (Raise (py "lookup failed"), []))
  /\ ((exists r after,
          Main.scrape_single_site_run prompt Example.world
            (py "example.com") []
          = (Return r, [] ++ after)
          /\ company r = py "example.com"
          /\ worker_requests (normalize_url (py "example.com")) 11 r after
          /\ (status r = py "success"
              \/ status r = py "text_extraction_failed"
              \/ status r = py "policy_not_found"))
      /\ (exists r after,
             NewMain.scrape_site_run prompt Example.world
               (py "example.com") []
             = (Return r, [] ++ after)
             /\ company r = py "example.com"
             /\ worker_requests (normalize_url (py "example.com")) 5 r after
             /\ (status r = py "success"
                 \/ status r = py "text_too_short"
                 \/ status r = py "not_found"))).
Proof.
  split; [|split].
  - destruct (worker_requests_and_statuses negative_pause Example.world
                (py "example.com") []) as [(_ & A & _) (_ & B & _)].
    split.
    + exact (A (py "sleep length must be non-negative") (py "example.com")
               eq_refl eq_refl).
    + exact (B (py "sleep length must be non-negative") eq_refl).
  - destruct (worker_requests_and_statuses no_lookup Example.world
                (py "example.com") []) as [(_ & _ & A) (_ & _ & B)].
    split.
    + exact (A (py "lookup failed") eq_refl).
    + exact (B (py "lookup failed") eq_refl eq_refl).
  - destruct (worker_requests_and_statuses prompt Example.world
                (py "example.com") []) as [(A & _) (B & _)].
    split.
    + exact (A (py "example.com") eq_refl eq_refl).
    + exact (B (py "example.com") eq_refl eq_refl).
Defined.

Lemma new_submit_all_run_after_pause (rt : nat -> Runtime)
    (net : nat -> World) (sites : list str) :
  (forall i, pause (rt i) = Return tt) ->
  (forall i site, In site sites -> exists c, lookup (rt i) site = Return c) ->
  forall i,
    NewMain.submit_all_run rt net i sites
    = NewMain.submit_all (fun j => with_lookup (net j) (rt j)) i sites.
Proof.
  intros P. induction sites as [|site rest IH]; intros L i;
    cbn [NewMain.submit_all_run NewMain.submit_all].
  - reflexivity.
  - destruct (L i site) as [c C]; [now left|].
    rewrite (proj1 (new_run_after_pause (rt i) (net i) site [] c (P i) C)).
    f_equal. apply IH. intros j s H. apply L. now right.
Qed.

(** X19.  When the pause and the domain lookup of every task return and
    the pool gives back every submitted task once, [new_main.py]'s batch
    run returns, for every list of sites (the empty one included), the
    tasks' results in the order in which the tasks finished, each result
    naming the site of its task. *)
Theorem new_results_in_completion_order :
  forall rt net as_completed sites,
    (forall i, pause (rt i) = Return tt) ->
    (forall i site, In site sites ->
                    exists c, lookup (rt i) site = Return c) ->
    Permutation (as_completed (NewMain.submit_all_run rt net 0 sites))
                (NewMain.submit_all_run rt net 0 sites) ->
    exists results,
      NewMain.scrape_all_run rt net as_completed sites = Return results
      /\ Forall2 (fun f r => snd f = Return r /\ site r = fst f)
                 (as_completed (NewMain.submit_all_run rt net 0 sites))
                 results.
Proof.
  intros rt net as_completed sites P L. unfold NewMain.scrape_all_run.
  rewrite (new_submit_all_run_after_pause rt net sites P L 0).
  intros Q. cbv zeta.
  exact (new_results_after_pause _ as_completed sites Q).
Qed.

Lemma new_results_in_completion_order_witness :
  exists results,
    NewMain.scrape_all_run (fun _ => prompt) (fun _ => Example.world)
      (@rev Future) [py "example.com"; py "unreachable.test"]
    = Return results
    /\ map site results = [py "unreachable.test"; py "example.com"]
    /\ map status results = [py "not_found"; py "text_too_short"].
Proof.
  destruct (new_results_in_completion_order (fun _ => prompt)
              (fun _ => Example.world) (@rev Future)
              [py "example.com"; py "unreachable.test"])
    as (results & E & F).
  - intros i. reflexivity.
  - intros i site _. exists site. reflexivity.
  - apply Permutation_sym, Permutation_rev.
  - exists results. split; [exact E|].
    assert (R : NewMain.scrape_all_run (fun _ => prompt)
                  (fun _ => Example.world) (@rev Future)
                  [py "example.com"; py "unreachable.test"]
                = Return results) by exact E.
    vm_compute in R. injection R as <-. split; reflexivity.
Defined.
